(** * LMArena Bridge dashboard: token store, usage recorder, timeline, sessions

    A shallow embedding of [database.py] (class [DashboardDatabase]) and of
    the session and token-info functions of [dashboard_server.py], with the
    properties of the token lifecycle and of the usage analytics store.

    Conventions of the embedding.
    - Python [int] is [Z]; [dict] with string keys is [gmap string _]
      (no property below depends on insertion order: the only iteration over
      a dict is [sorted(timeline.items())]); [list] is [list].
    - A naive [datetime] is the number of microseconds since
      0001-01-01T00:00:00, the representation in which Python compares
      datetimes and adds timedeltas.  Timestamps are stored through
      [isoformat] and read back through [fromisoformat], which are inverse
      to each other on naive datetimes, so records hold the datetime itself.
    - What the code takes from its environment is an explicit argument:
      the clock readings of [datetime.now()], the output of
      [secrets.token_urlsafe], the reply of the geolocation service, and the
      SHA-256 hex digest (a variable of the section [Store]).
    - [_save_data] rewrites the file with the dump of the whole store; the
      write is taken to succeed. *)

From Stdlib Require Import ZArith Lia.
From stdpp Require Import gmap strings list fin_maps sorting.

Local Open Scope string_scope.
Local Open Scope list_scope.
Local Open Scope Z_scope.

(** ** Dates and times *)

Abbreviation datetime := Z (only parsing).
Abbreviation timedelta := Z (only parsing).

Definition MICROSECONDS_PER_DAY : Z := 86400000000.
Definition MICROSECONDS_PER_HOUR : Z := 3600000000.

(** [date.max.toordinal()]: 9999-12-31 is day 3652059, counting
    0001-01-01 as day 1. *)
Definition MAX_ORDINAL : Z := 3652059.

(** [timedelta.max.days] *)
Definition MAX_DELTA_DAYS : Z := 999999999.

(** [timedelta(days=d)]: [None] stands for [OverflowError]. *)
Definition timedelta_days (d : Z) : option timedelta :=
  if bool_decide (- MAX_DELTA_DAYS <= d <= MAX_DELTA_DAYS)
  then Some (d * MICROSECONDS_PER_DAY) else None.

(** [timedelta(hours=h)] *)
Definition timedelta_hours (h : Z) : option timedelta :=
  if bool_decide (- MAX_DELTA_DAYS * 24 <= h < (MAX_DELTA_DAYS + 1) * 24)
  then Some (h * MICROSECONDS_PER_HOUR) else None.

Definition datetime_in_range (t : Z) : bool :=
  bool_decide (0 <= t < MAX_ORDINAL * MICROSECONDS_PER_DAY).

(** [dt + delta] and [dt - delta]: [None] stands for [OverflowError]
    (the result would leave the years 1..9999). *)
Definition datetime_add (dt : datetime) (delta : timedelta) : option datetime :=
  if datetime_in_range (dt + delta) then Some (dt + delta) else None.

Definition datetime_sub (dt : datetime) (delta : timedelta) : option datetime :=
  datetime_add dt (- delta).

(** Proleptic Gregorian date of a day number (0001-01-01 is day 1). *)
Definition ord2ymd (ordinal : Z) : Z * Z * Z :=
  let z := ordinal + 305 in
  let era := z / 146097 in
  let doe := z - era * 146097 in
  let yoe := (doe - doe / 1460 + doe / 36524 - doe / 146096) / 365 in
  let doy := doe - (365 * yoe + yoe / 4 - yoe / 100) in
  let mp := (5 * doy + 2) / 153 in
  let d := doy - (153 * mp + 2) / 5 + 1 in
  let m := if mp <? 10 then mp + 3 else mp - 9 in
  let y := yoe + era * 400 + (if m <=? 2 then 1 else 0) in
  (y, m, d).

Definition digit (n : Z) : Ascii.ascii :=
  Ascii.ascii_of_nat (48 + Z.to_nat (n mod 10)).

Definition pad2 (n : Z) : string :=
  String (digit (n / 10)) (String (digit n) "").

Definition pad4 (n : Z) : string :=
  String (digit (n / 1000)) (String (digit (n / 100)) (pad2 n)).

(** The year as [%Y] writes it with CPython on glibc: in decimal, without
    padding, so with four digits from the year 1000 on. *)
Definition year_digits (y : Z) : string :=
  if y <? 10 then String (digit y) ""
  else if y <? 100 then pad2 y
  else if y <? 1000 then String (digit (y / 100)) (pad2 y)
  else pad4 y.

(** [dt.strftime("%Y-%m-%d")]: the month and the day have two digits. *)
Definition strftime_ymd (dt : datetime) : string :=
  let '(y, m, d) := ord2ymd (dt / MICROSECONDS_PER_DAY + 1) in
  year_digits y +:+ "-" +:+ pad2 m +:+ "-" +:+ pad2 d.

(** ** Data model *)

Module UsageStats.
Record t := mk {
  total_requests : Z;
  total_tokens : Z;
  models_used : gmap string Z;
  ip_addresses : list string;
  countries : gmap string Z
}.
End UsageStats.

Module Token.
Record t := mk {
  key : string;
  created_at : datetime;
  last_used : option datetime;
  is_active : bool;
  user_info : gmap string string;
  usage_stats : UsageStats.t
}.
End Token.

Module UsageLog.
Record t := mk {
  timestamp : datetime;
  token_id : string;
  model : string;
  tokens : Z;
  ip : string;
  country : option string
}.
End UsageLog.

Module GlobalStats.
Record t := mk {
  total_requests : Z;
  total_tokens : Z;
  active_tokens : Z
}.
End GlobalStats.

Module Db.
Record t := mk {
  tokens : gmap string Token.t;
  usage_logs : list UsageLog.t;
  stats : GlobalStats.t
}.
End Db.

(** ** The persisted file *)

(** What [json.load] returns: the document of a store, or any other JSON
    value, kept as its text ([json.load] does not look at the shape of what
    it parses). *)
Inductive document :=
  | StoreDoc (d : Db.t)
  | OtherDoc (text : string).

(** The content of the file at [db_file], by what reading it does. *)
Inductive file_content :=
  | Unreadable                (* [open] raises [OSError] *)
  | NotUtf8                   (* the bytes are not UTF-8: [UnicodeDecodeError] *)
  | NotJson                   (* the text is no JSON document: [JSONDecodeError] *)
  | Document (doc : document) (* the text of a JSON document *).

Inductive exn :=
  | OSError
  | UnicodeDecodeError
  | JSONDecodeError.

Inductive result (A : Type) :=
  | Returns (a : A)
  | Raises (e : exn).
Arguments Returns {A} a.
Arguments Raises {A} e.

(** [json.load(f)] on an opened file *)
Definition json_load (c : file_content) : result document :=
  match c with
  | Unreadable => Raises OSError
  | NotUtf8 => Raises UnicodeDecodeError
  | NotJson => Raises JSONDecodeError
  | Document doc => Returns doc
  end.

Definition _create_empty_db : Db.t :=
  Db.mk ∅ [] (GlobalStats.mk 0 0 0).

(** [None] is the missing file ([os.path.exists] is false).  Only
    [JSONDecodeError] is caught. *)
Definition _load_data (db_file : option file_content) : result document :=
  match db_file with
  | Some c =>
      match json_load c with
      | Returns doc => Returns doc
      | Raises JSONDecodeError => Returns (StoreDoc _create_empty_db)
      | Raises e => Raises e
      end
  | None => Returns (StoreDoc _create_empty_db)
  end.

(** The object: the store in memory and the file it is saved to. *)
Record DashboardDatabase := mkDashboardDatabase {
  data : Db.t;
  db_file : option file_content
}.

Definition _save_data (self : DashboardDatabase) : DashboardDatabase :=
  mkDashboardDatabase (data self) (Some (Document (StoreDoc (data self)))).

(** ** Field updates *)

Definition with_is_active (b : bool) (t : Token.t) : Token.t :=
  Token.mk (Token.key t) (Token.created_at t) (Token.last_used t) b
           (Token.user_info t) (Token.usage_stats t).

Definition with_active_tokens (n : Z) (s : GlobalStats.t) : GlobalStats.t :=
  GlobalStats.mk (GlobalStats.total_requests s) (GlobalStats.total_tokens s) n.

Definition with_tokens (m : gmap string Token.t) (d : Db.t) : Db.t :=
  Db.mk m (Db.usage_logs d) (Db.stats d).

Definition with_stats (s : GlobalStats.t) (d : Db.t) : Db.t :=
  Db.mk (Db.tokens d) (Db.usage_logs d) s.

Definition with_data (d : Db.t) (self : DashboardDatabase) : DashboardDatabase :=
  mkDashboardDatabase d (db_file self).

(** [self.data["stats"]["active_tokens"] += k] *)
Definition add_active_tokens (k : Z) (d : Db.t) : Db.t :=
  with_stats (with_active_tokens (GlobalStats.active_tokens (Db.stats d) + k)
                                 (Db.stats d)) d.

(** [self.data["tokens"][token_id]["is_active"] = b], for a present key *)
Definition set_is_active (token_id : string) (b : bool) (d : Db.t) : Db.t :=
  with_tokens (alter (with_is_active b) token_id (Db.tokens d)) d.

(** ** Python truth values *)

(** [if s:] for a string *)
Definition truthy (s : string) : bool := negb (String.eqb s "").

(** [if x:] for an [Optional[str]] *)
Definition truthy_opt (x : option string) : bool :=
  match x with
  | Some s => truthy s
  | None => false
  end.

(** ** Geolocation *)

(** The reply to [requests.get(...)] followed by [response.json()]: an
    exception anywhere in the [try] block, or a status code and the
    ["country"] member of the body ([None]: no such member; [Some None]:
    the member is [null]). *)
Inductive geo_reply :=
  | GeoRaises
  | GeoResponse (status_code : Z) (country : option (option string)).

Definition _get_country_from_ip (reply : geo_reply) (ip : string) : option string :=
  if bool_decide (ip ∈ ["127.0.0.1"; "localhost"; "::1"]) then Some "Local"
  else match reply with
       | GeoResponse status_code body =>
           if bool_decide (status_code = 200)
           then match body with
                | Some c => c
                | None => Some "Unknown"
                end
           else Some "Unknown"
       | GeoRaises => Some "Unknown"
       end.

(** ** Usage bookkeeping on one token *)

(** [if k not in m: m[k] = 0] then [m[k] += 1] *)
Definition count_up (k : string) (m : gmap string Z) : gmap string Z :=
  let m := match m !! k with
           | None => <[k := 0]> m
           | Some _ => m
           end in
  <[k := default 0 (m !! k) + 1]> m.

(** The bound on [ip_addresses]. *)
Definition IP_CAP : nat := 100.

(** The bound on [usage_logs]. *)
Definition LOG_CAP : nat := Z.to_nat 10000.

(** [if ip not in l: l.append(ip); if len(l) > 100: l.pop(0)] *)
Definition track_ip (ip : string) (l : list string) : list string :=
  if bool_decide (ip ∈ l) then l
  else let l := l ++ [ip] in
       if bool_decide (IP_CAP < length l)%nat then drop 1 l else l.

(** [logs.append(e); if len(logs) > 10000: logs = logs[-10000:]] *)
Definition append_log (e : UsageLog.t) (logs : list UsageLog.t) : list UsageLog.t :=
  let logs := logs ++ [e] in
  if bool_decide (LOG_CAP < length logs)%nat
  then drop (length logs - LOG_CAP)%nat logs else logs.

(** The updates of [log_usage] to [token_data]. *)
Definition record_on_token (now : datetime) (model : string) (tokens_used : Z)
    (ip : string) (country : option string) (t : Token.t) : Token.t :=
  let u := Token.usage_stats t in
  let u := UsageStats.mk
             (UsageStats.total_requests u + 1)
             (UsageStats.total_tokens u + tokens_used)
             (count_up model (UsageStats.models_used u))
             (track_ip ip (UsageStats.ip_addresses u))
             (match country with
              | Some c => if truthy c then count_up c (UsageStats.countries u)
                          else UsageStats.countries u
              | None => UsageStats.countries u
              end) in
  Token.mk (Token.key t) (Token.created_at t) (Some now) (Token.is_active t)
           (Token.user_info t) u.

(** ** Sessions ([dashboard_server.py]) *)

Module Session.
Record t := mk {
  username : string;
  created_at : datetime;
  expires_at : datetime
}.
End Session.

(** [create_session]: [urlsafe] is the output of [secrets.token_urlsafe(32)],
    [now1] and [now2] the two readings of the clock, in this order.  [None]
    stands for the [OverflowError] of the date arithmetic. *)
Definition create_session (sessions : gmap string Session.t) (urlsafe : string)
    (now1 now2 : datetime) (username : string)
    : option (string * gmap string Session.t) :=
  let session_id := urlsafe in
  delta ← timedelta_hours 24;
  expires ← datetime_add now2 delta;
  Some (session_id, <[session_id := Session.mk username now1 expires]> sessions).

(** [validate_session]: [now] is the reading of the clock, taken only when the
    session is found. *)
Definition validate_session (sessions : gmap string Session.t)
    (session_id : option string) (now : datetime)
    : bool * gmap string Session.t :=
  match session_id with
  | None => (false, sessions)
  | Some sid =>
      if negb (truthy sid) then (false, sessions)
      else match sessions !! sid with
           | None => (false, sessions)
           | Some session =>
               if bool_decide (Session.expires_at session < now)
               then (false, delete sid sessions)
               else (true, sessions)
           end
  end.

(** ** Usage timeline ([DashboardDatabase.get_usage_timeline]) *)

Module Bucket.
Record t := mk {
  date : string;
  requests : Z;
  tokens : Z
}.
End Bucket.

(** One turn of the loop over [usage_logs]; a bucket is the pair of its
    ["requests"] and ["tokens"]. *)
Definition timeline_step (cutoff_date : datetime) (token_id : option string)
    (timeline : gmap string (Z * Z)) (log : UsageLog.t) : gmap string (Z * Z) :=
  let log_date := UsageLog.timestamp log in
  if bool_decide (log_date < cutoff_date) then timeline
  else if truthy_opt token_id
          && negb (bool_decide (Some (UsageLog.token_id log) = token_id))
  then timeline
  else
    let date_key := strftime_ymd log_date in
    let timeline := match timeline !! date_key with
                    | None => <[date_key := (0, 0)]> timeline
                    | Some _ => timeline
                    end in
    let b := default (0, 0) (timeline !! date_key) in
    <[date_key := (b.1 + 1, b.2 + UsageLog.tokens log)]> timeline.

(** [sorted(timeline.items())]: the keys of a dict are distinct, so the
    pairs are ordered by key alone. *)
Definition items_le (x y : string * (Z * Z)) : Prop := String.le x.1 y.1.

Definition sorted_items (timeline : gmap string (Z * Z)) : list (string * (Z * Z)) :=
  merge_sort items_le (map_to_list timeline).

Definition bucket_of_item (kv : string * (Z * Z)) : Bucket.t :=
  Bucket.mk kv.1 kv.2.1 kv.2.2.

(** [get_usage_timeline]: [now] is the reading of the clock; [None] stands
    for the [OverflowError] of [timedelta(days=days)] or of the
    subtraction. *)
Definition get_usage_timeline (d : Db.t) (now : datetime)
    (token_id : option string) (days : Z) : option (list Bucket.t) :=
  delta ← timedelta_days days;
  cutoff_date ← datetime_sub now delta;
  let timeline := foldl (timeline_step cutoff_date token_id) ∅ (Db.usage_logs d) in
  Some (bucket_of_item <$> sorted_items timeline).

(** The time a session lives. *)
Definition SESSION_TTL : Z := 24 * MICROSECONDS_PER_HOUR.

(** ** Lists of numbers and of entries *)

(** The sum of a list of numbers. *)
Definition sumZ (l : list Z) : Z := foldr Z.add 0 l.

(** [l[-n:]] for a positive [n]: the last [n] items of [l], all of [l] when
    it has fewer. *)
Definition lastn {A} (n : nat) (l : list A) : list A :=
  drop (length l - n) l.

(** *** The reference: re-bucketing the log

    Written from the specification of the timeline, to be compared with
    [get_usage_timeline]. *)

(** The entry is not older than the cutoff and, when a token is asked for,
    is an entry of this token. *)
Definition survives (cutoff : datetime) (token_id : option string)
    (log : UsageLog.t) : Prop :=
  cutoff <= UsageLog.timestamp log
  ∧ match token_id with
    | Some tid => UsageLog.token_id log = tid
    | None => True
    end.

#[global] Instance survives_dec cutoff token_id log :
  Decision (survives cutoff token_id log).
Proof. unfold survives. destruct token_id; apply _. Defined.

(** The calendar date of an entry, as [strftime] writes it: [YYYY-MM-DD]
    from the year 1000 on. *)
Definition date_of (log : UsageLog.t) : string :=
  strftime_ymd (UsageLog.timestamp log).

(** The surviving entries of one calendar date. *)
Definition day_entries (cutoff : datetime) (token_id : option string)
    (day : string) (logs : list UsageLog.t) : list UsageLog.t :=
  filter (λ log, date_of log = day) (filter (survives cutoff token_id) logs).

(** One bucket for each date that has a surviving entry, by ascending date. *)
Definition reference_timeline (cutoff : datetime) (token_id : option string)
    (logs : list UsageLog.t) : list Bucket.t :=
  let days :=
    merge_sort String.le
      (remove_dups (date_of <$> filter (survives cutoff token_id) logs)) in
  (λ day, let es := day_entries cutoff token_id day logs in
          Bucket.mk day (Z.of_nat (length es)) (sumZ (UsageLog.tokens <$> es)))
    <$> days.

(** What the scan adds to a bucket, given the surviving entries of its day. *)
Definition bump (o : option (Z * Z)) (es : list UsageLog.t) : option (Z * Z) :=
  match es with
  | [] => o
  | _ => let b := default (0, 0) o in
         Some (b.1 + Z.of_nat (length es), b.2 + sumZ (UsageLog.tokens <$> es))
  end.

(** A stand-in for the hex digest in the examples: the identity, so that a
    token identifier is the first 16 characters of the secret. *)
Definition demo_digest (s : string) : string := s.

(** ** The token store and the usage recorder ([database.py]) *)

Section Store.

(** [hashlib.sha256(s.encode()).hexdigest()] *)
Variable sha256_hexdigest : string → string.

(** [hashlib.sha256(token.encode()).hexdigest()[:16]] *)
Definition token_id_of (token : string) : string :=
  String.substring 0 16 (sha256_hexdigest token).

Definition new_token (token : string) (now : datetime)
    (user_info : option (gmap string string)) : Token.t :=
  Token.mk token now None true (default ∅ user_info)
           (UsageStats.mk 0 0 ∅ [] ∅).

(** [urlsafe] is the output of [secrets.token_urlsafe(32)], [now] the
    reading of the clock. *)
Definition generate_token (self : DashboardDatabase) (urlsafe : string)
    (now : datetime) (user_info : option (gmap string string))
    : string * DashboardDatabase :=
  let token := "lma_" +:+ urlsafe in
  let token_id := token_id_of token in
  let d := data self in
  let d := with_tokens (<[token_id := new_token token now user_info]> (Db.tokens d)) d in
  let d := add_active_tokens 1 d in
  (token, _save_data (with_data d self)).

Definition get_token_info (self : DashboardDatabase) (token : string)
    : option Token.t :=
  Db.tokens (data self) !! token_id_of token.

Definition get_token_by_id (self : DashboardDatabase) (token_id : string)
    : option Token.t :=
  Db.tokens (data self) !! token_id.

Definition validate_token (self : DashboardDatabase) (token : string) : bool :=
  match get_token_info self token with
  | Some token_info => Token.is_active token_info
  | None => false
  end.

Definition revoke_token (self : DashboardDatabase) (token_id : string)
    : bool * DashboardDatabase :=
  match Db.tokens (data self) !! token_id with
  | Some t =>
      let d := data self in
      let d := if Token.is_active t then add_active_tokens (-1) d else d in
      let d := set_is_active token_id false d in
      (true, _save_data (with_data d self))
  | None => (false, self)
  end.

Definition activate_token (self : DashboardDatabase) (token_id : string)
    : bool * DashboardDatabase :=
  match Db.tokens (data self) !! token_id with
  | Some t =>
      let d := data self in
      let d := if negb (Token.is_active t) then add_active_tokens 1 d else d in
      let d := set_is_active token_id true d in
      (true, _save_data (with_data d self))
  | None => (false, self)
  end.

Definition delete_token (self : DashboardDatabase) (token_id : string)
    : bool * DashboardDatabase :=
  match Db.tokens (data self) !! token_id with
  | Some t =>
      let d := data self in
      let d := if Token.is_active t then add_active_tokens (-1) d else d in
      let d := with_tokens (delete token_id (Db.tokens d)) d in
      (true, _save_data (with_data d self))
  | None => (false, self)
  end.

(** What one call of [log_usage] reads from its environment: the two
    readings of the clock, in this order, and the reply of the
    geolocation service. *)
Record usage_env := mk_usage_env {
  now_used : datetime;
  now_logged : datetime;
  geo : geo_reply
}.

Definition log_usage (self : DashboardDatabase) (token model : string)
    (tokens_used : Z) (ip : string) (env : usage_env) : DashboardDatabase :=
  let token_id := token_id_of token in
  match Db.tokens (data self) !! token_id with
  | None => self
  | Some _ =>
      let country := _get_country_from_ip (geo env) ip in
      let d := data self in
      let d := with_tokens
                 (alter (record_on_token (now_used env) model tokens_used ip country)
                        token_id (Db.tokens d)) d in
      let e := UsageLog.mk (now_logged env) token_id model tokens_used ip country in
      let d := Db.mk (Db.tokens d) (append_log e (Db.usage_logs d)) (Db.stats d) in
      let s := Db.stats d in
      let d := with_stats (GlobalStats.mk (GlobalStats.total_requests s + 1)
                                          (GlobalStats.total_tokens s + tokens_used)
                                          (GlobalStats.active_tokens s)) d in
      _save_data (with_data d self)
  end.

Definition get_active_token_count (self : DashboardDatabase) : Z :=
  GlobalStats.active_tokens (Db.stats (data self)).

Definition get_global_stats (self : DashboardDatabase) : GlobalStats.t :=
  Db.stats (data self).

(** *** The token-info endpoint ([dashboard_server.py]) *)

(** A value of the response object. *)
Inductive field_value :=
  | VDatetime (t : datetime)
  | VOptDatetime (t : option datetime)
  | VBool (b : bool)
  | VUsageStats (u : UsageStats.t).

Inductive http_result (A : Type) :=
  | Ok (a : A)
  | HTTPException (status_code : Z) (detail : string).
Arguments Ok {A} a.
Arguments HTTPException {A} status_code detail.

(** [GET /api/token/{token}/info]; the response object is the list of its
    members, in the order the code writes them. *)
Definition get_token_info_endpoint (db : DashboardDatabase) (token : string)
    : http_result (list (string * field_value)) :=
  match get_token_info db token with
  | None => HTTPException 404 "Token not found"
  | Some token_info =>
      Ok [ ("created_at", VDatetime (Token.created_at token_info));
           ("last_used", VOptDatetime (Token.last_used token_info));
           ("is_active", VBool (Token.is_active token_info));
           ("usage_stats", VUsageStats (Token.usage_stats token_info)) ]
  end.

(** *** Runs of operations *)

Inductive op :=
  | GenerateToken (urlsafe : string) (now : datetime)
                  (user_info : option (gmap string string))
  | RevokeToken (token_id : string)
  | ActivateToken (token_id : string)
  | DeleteToken (token_id : string)
  | LogUsage (token model : string) (tokens_used : Z) (ip : string)
             (env : usage_env).

Definition step (self : DashboardDatabase) (o : op) : DashboardDatabase :=
  match o with
  | GenerateToken urlsafe now user_info => (generate_token self urlsafe now user_info).2
  | RevokeToken token_id => (revoke_token self token_id).2
  | ActivateToken token_id => (activate_token self token_id).2
  | DeleteToken token_id => (delete_token self token_id).2
  | LogUsage token model tokens_used ip env =>
      log_usage self token model tokens_used ip env
  end.

Definition run (self : DashboardDatabase) (ops : list op) : DashboardDatabase :=
  foldl step self ops.

(** A store just created, with no file yet. *)
Definition empty_store : DashboardDatabase :=
  mkDashboardDatabase _create_empty_db None.

(** The number of token records whose [is_active] is true. *)
Definition count_active (m : gmap string Token.t) : Z :=
  Z.of_nat (size (filter (λ kv, Token.is_active kv.2 = true) m)).

(** [is_active] of a token, false for an absent one. *)
Definition active_at (token_id : string) (self : DashboardDatabase) : bool :=
  match Db.tokens (data self) !! token_id with
  | Some t => Token.is_active t
  | None => false
  end.

(** The token an operation is about. *)
Definition target (o : op) : string :=
  match o with
  | GenerateToken urlsafe _ _ => token_id_of ("lma_" +:+ urlsafe)
  | RevokeToken token_id | ActivateToken token_id | DeleteToken token_id => token_id
  | LogUsage token _ _ _ _ => token_id_of token
  end.

(** The identifier of a generated token is new to the store: the secrets
    that [secrets.token_urlsafe] returns are distinct, and so are their
    truncated digests. *)
Definition fresh (self : DashboardDatabase) (o : op) : bool :=
  match o with
  | GenerateToken urlsafe _ _ =>
      bool_decide (Db.tokens (data self) !! token_id_of ("lma_" +:+ urlsafe) = None)
  | _ => true
  end.

Fixpoint fresh_run (self : DashboardDatabase) (ops : list op) : bool :=
  match ops with
  | [] => true
  | o :: ops => fresh self o && fresh_run (step self o) ops
  end.

(** The change of the [is_active] flag of the token of [o], as a number;
    an absent token counts as inactive. *)
Definition transition (o : op) (before after : DashboardDatabase) : Z :=
  Z.b2z (active_at (target o) after) - Z.b2z (active_at (target o) before).

(** [stats.active_tokens] is the number of active token records. *)
Definition counter_exact (self : DashboardDatabase) : Prop :=
  get_active_token_count self = count_active (Db.tokens (data self)).

(** The log entry that [o] records on [self]: the one of a [log_usage] call
    whose token is in the store. *)
Definition recorded (self : DashboardDatabase) (o : op) : option UsageLog.t :=
  match o with
  | LogUsage token model tokens_used ip env =>
      match Db.tokens (data self) !! token_id_of token with
      | Some _ =>
          Some (UsageLog.mk (now_logged env) (token_id_of token) model tokens_used
                            ip (_get_country_from_ip (geo env) ip))
      | None => None
      end
  | _ => None
  end.

(** The usage events recorded along a run, oldest first. *)
Fixpoint events (self : DashboardDatabase) (ops : list op) : list UsageLog.t :=
  match ops with
  | [] => []
  | o :: ops => option_list (recorded self o) ++ events (step self o) ops
  end.

(** The IP addresses of the [log_usage] calls of [ops] whose token has the
    identifier [token_id], oldest first. *)
Definition ips_recorded (token_id : string) (ops : list op) : list string :=
  omap (λ o, match o with
             | LogUsage token _ _ ip _ =>
                 if bool_decide (token_id_of token = token_id) then Some ip else None
             | _ => None
             end) ops.

(** [o] neither deletes the token [token_id] nor generates it anew. *)
Definition keeps (token_id : string) (o : op) : bool :=
  match o with
  | GenerateToken _ _ _ | DeleteToken _ => bool_decide (target o ≠ token_id)
  | _ => true
  end.

(** The [ip_addresses] of a token of the store, empty for an absent token. *)
Definition ips_of (token_id : string) (self : DashboardDatabase) : list string :=
  match Db.tokens (data self) !! token_id with
  | Some t => UsageStats.ip_addresses (Token.usage_stats t)
  | None => []
  end.

(** A token record with another secret and other display metadata. *)
Definition with_key_and_user_info (key : string) (user_info : gmap string string)
    (t : Token.t) : Token.t :=
  Token.mk key (Token.created_at t) (Token.last_used t) (Token.is_active t)
           user_info (Token.usage_stats t).

(** The names of the members of a response object. *)
Definition member_names (response : list (string * field_value)) : list string :=
  response.*1.

(** *** Sample data for the examples *)

Definition sample_env : usage_env := mk_usage_env 0 0 GeoRaises.

(** Two tokens are generated and the first is revoked, then activated
    again; the second is deleted. *)
Definition sample_admin_before : list op :=
  [GenerateToken "a" 100 None; GenerateToken "b" 101 None; RevokeToken "lma_a"].

Definition sample_admin_after : list op := [DeleteToken "lma_b"].

(** The usage events number [first], [first + 1], ..., [first + count - 1] of
    the token [lma_a]; the event number [i] uses [i] tokens and comes from
    the address [10.0.i]. *)
Definition sample_usage (first : Z) (count : nat) : list op :=
  (λ i, LogUsage "lma_a" "gpt" i ("10.0." +:+ pad4 i) sample_env)
    <$> seqZ first (Z.of_nat count).

(** A log of four entries over two days and two tokens.  Day 738886 is
    2024-01-01. *)
Definition sample_logs : list UsageLog.t :=
  [ UsageLog.mk (738885 * MICROSECONDS_PER_DAY + 10) "lma_a" "gpt" 10 "1.2.3.4" None;
    UsageLog.mk (738886 * MICROSECONDS_PER_DAY + 20) "lma_b" "gpt" 7 "1.2.3.5" None;
    UsageLog.mk (738885 * MICROSECONDS_PER_DAY + 30) "lma_a" "gpt" 5 "1.2.3.4" None;
    UsageLog.mk (738870 * MICROSECONDS_PER_DAY) "lma_a" "gpt" 100 "1.2.3.4" None ].

Definition sample_db : Db.t :=
  Db.mk ∅ sample_logs (GlobalStats.mk 4 122 0).

(** 2024-01-03, at midnight. *)
Definition sample_now : datetime := 738887 * MICROSECONDS_PER_DAY.

(** ** The read-only queries of the store ([database.py]) *)

(** [l[start:]]: a negative [start] counts from the end, and a [start]
    beyond either end is clipped to it. *)
Definition slice_from {A} (start : Z) (l : list A) : list A :=
  let len := Z.of_nat (length l) in
  let start := if start <? 0 then Z.max (start + len) 0 else Z.min start len in
  drop (Z.to_nat start) l.

Definition get_all_tokens (self : DashboardDatabase) : gmap string Token.t :=
  Db.tokens (data self).

(** [self.data["usage_logs"][-limit:]] *)
Definition get_recent_usage (self : DashboardDatabase) (limit : Z)
    : list UsageLog.t :=
  slice_from (- limit) (Db.usage_logs (data self)).

Definition get_token_usage_by_model (self : DashboardDatabase)
    (token_id : string) : gmap string Z :=
  match Db.tokens (data self) !! token_id with
  | Some t => UsageStats.models_used (Token.usage_stats t)
  | None => ∅
  end.

Definition get_token_usage_by_country (self : DashboardDatabase)
    (token_id : string) : gmap string Z :=
  match Db.tokens (data self) !! token_id with
  | Some t => UsageStats.countries (Token.usage_stats t)
  | None => ∅
  end.

(** The sum of the counts of a dict of counters. *)
Definition sum_counts (m : gmap string Z) : Z :=
  map_fold (λ _ n acc, n + acc) 0 m.

(** ** The dashboard server ([dashboard_server.py], and the same functions
    of [integrated_server.py]) *)

(** What a request handler does: it returns a response, raises an
    [HTTPException], or raises another exception, named by its class. *)
Inductive handler_result (A : Type) :=
  | Responds (a : A)
  | Fails (status_code : Z) (detail : string)
  | Crashes (exception : string).
Arguments Responds {A} a.
Arguments Fails {A} status_code detail.
Arguments Crashes {A} exception.

Record Cookie := mkCookie {
  cookie_key : string;
  cookie_value : string;
  httponly : bool;
  max_age : Z;
  samesite : string
}.

(** A [RedirectResponse], with the cookies it sets and those it deletes. *)
Record RedirectResponse := mkRedirectResponse {
  url : string;
  status_code : Z;
  set_cookies : list Cookie;
  deleted_cookies : list string
}.

(** The state of the server: the database object and the session store. *)
Record Server := mkServer {
  db : DashboardDatabase;
  sessions : gmap string Session.t
}.

(** [get_current_user]: [now] is the reading of the clock of
    [validate_session]. *)
Definition get_current_user (sessions : gmap string Session.t)
    (session_id : option string) (now : datetime)
    : handler_result string * gmap string Session.t :=
  let '(valid, sessions) := validate_session sessions session_id now in
  if negb valid then (Fails 401 "Not authenticated", sessions)
  else match session_id ≫= (sessions !!.) with
       | Some session => (Responds (Session.username session), sessions)
       | None => (Crashes "KeyError", sessions)
       end.

(** [POST /admin/login]: [ADMIN_USERNAME] and [ADMIN_PASSWORD] are the
    credentials of the administrator, read from the environment when the
    module is loaded; [urlsafe], [now1] and [now2] are what [create_session]
    takes from its environment. *)
Definition admin_login (ADMIN_USERNAME ADMIN_PASSWORD : string)
    (sessions : gmap string Session.t)
    (username password : string) (urlsafe : string) (now1 now2 : datetime)
    : handler_result RedirectResponse * gmap string Session.t :=
  if bool_decide (username = ADMIN_USERNAME)
     && bool_decide (password = ADMIN_PASSWORD)
  then match create_session sessions urlsafe now1 now2 username with
       | Some (session_id, sessions) =>
           (Responds (mkRedirectResponse "/admin" 303
                        [mkCookie "session_id" session_id true 86400 "lax"] []),
            sessions)
       | None => (Crashes "OverflowError", sessions)
       end
  else (Fails 401 "Invalid credentials", sessions).

(** [GET /admin/logout] *)
Definition admin_logout (sessions : gmap string Session.t)
    (session_id : option string)
    : RedirectResponse * gmap string Session.t :=
  let sessions :=
    match session_id with
    | Some sid =>
        if truthy sid && bool_decide (is_Some (sessions !! sid))
        then delete sid sessions else sessions
    | None => sessions
    end in
  (mkRedirectResponse "/admin/login" 303 [] ["session_id"], sessions).

(** A handler with [username: str = Depends(get_current_user)]: the
    dependency runs first, and the body runs only if it returns. *)
Definition with_current_user {A} (srv : Server) (session_id : option string)
    (now : datetime) (body : string → DashboardDatabase → A * DashboardDatabase)
    : handler_result A * Server :=
  match get_current_user (sessions srv) session_id now with
  | (Responds username, sessions) =>
      let '(a, db) := body username (db srv) in
      (Responds a, mkServer db sessions)
  | (Fails status_code detail, sessions) =>
      (Fails status_code detail, mkServer (db srv) sessions)
  | (Crashes exception, sessions) =>
      (Crashes exception, mkServer (db srv) sessions)
  end.

(** [POST /admin/token/create]; the response is the pair of its [success]
    and [token] members.  [urlsafe] and [created] are what [generate_token]
    takes from its environment. *)
Definition create_token_endpoint (srv : Server) (user_name user_email : string)
    (session_id : option string) (now : datetime) (urlsafe : string)
    (created : datetime) : handler_result (bool * string) * Server :=
  with_current_user srv session_id now (λ _ db,
    let user_info : gmap string string := ∅ in
    let user_info := if truthy user_name
                     then <["name" := user_name]> user_info else user_info in
    let user_info := if truthy user_email
                     then <["email" := user_email]> user_info else user_info in
    let '(token, db) := generate_token db urlsafe created (Some user_info) in
    ((true, token), db)).

(** [POST /admin/token/{token_id}/revoke], [.../activate] and [.../delete];
    the response is its [success] member. *)
Definition revoke_token_endpoint (srv : Server) (token_id : string)
    (session_id : option string) (now : datetime)
    : handler_result bool * Server :=
  with_current_user srv session_id now (λ _ db, revoke_token db token_id).

Definition activate_token_endpoint (srv : Server) (token_id : string)
    (session_id : option string) (now : datetime)
    : handler_result bool * Server :=
  with_current_user srv session_id now (λ _ db, activate_token db token_id).

Definition delete_token_endpoint (srv : Server) (token_id : string)
    (session_id : option string) (now : datetime)
    : handler_result bool * Server :=
  with_current_user srv session_id now (λ _ db, delete_token db token_id).

(** [GET /api/admin/tokens] and [GET /api/admin/recent-usage] *)
Definition get_all_tokens_api (srv : Server) (session_id : option string)
    (now : datetime) : handler_result (gmap string Token.t) * Server :=
  with_current_user srv session_id now (λ _ db, (get_all_tokens db, db)).

Definition get_recent_usage_api (srv : Server) (limit : Z)
    (session_id : option string) (now : datetime)
    : handler_result (list UsageLog.t) * Server :=
  with_current_user srv session_id now (λ _ db, (get_recent_usage db limit, db)).

(** [GET /api/usage/timeline]: [now] is the reading of the clock of
    [get_usage_timeline]. *)
Definition get_usage_timeline_endpoint (db : DashboardDatabase) (days : Z)
    (token : option string) (now : datetime) : handler_result (list Bucket.t) :=
  let token_id := match token with
                  | Some tok => if truthy tok then Some (token_id_of tok) else None
                  | None => None
                  end in
  match get_usage_timeline (data db) now token_id days with
  | Some timeline => Responds timeline
  | None => Crashes "OverflowError"
  end.

(** [GET /health]: the [status] and [active_tokens] members. *)
Definition health_check (db : DashboardDatabase) : string * Z :=
  ("healthy", get_active_token_count db).

(** The aggregates of a token agree with each other: the per-model counts
    are positive and add up to the number of requests, and the per-country
    counts add up to no more. *)
Definition usage_consistent (u : UsageStats.t) : Prop :=
  sum_counts (UsageStats.models_used u) = UsageStats.total_requests u
  ∧ sum_counts (UsageStats.countries u) <= UsageStats.total_requests u
  ∧ map_Forall (λ _ n, 1 <= n) (UsageStats.models_used u).

(** ** Case analysis on an operation and on its token *)

Ltac op_cases o tid :=
  destruct o as [urlsafe now user_info|tid|tid|tid
                |token model tokens_used ip env].

Ltac token_cases self k :=
  destruct (Db.tokens (data self) !! k) as [t|] eqn:Ht.

(** ** Counting active tokens *)

Lemma count_active_empty : count_active ∅ = 0.
Proof. unfold count_active. by rewrite map_filter_empty, map_size_empty. Qed.

Lemma count_active_insert_fresh (m : gmap string Token.t) k t :
  m !! k = None →
  count_active (<[k := t]> m) = count_active m + Z.b2z (Token.is_active t).
Proof.
  intros Hk. unfold count_active.
  destruct (Token.is_active t) eqn:Ht; simpl.
  - rewrite map_filter_insert_True by done.
    rewrite map_size_insert_None by (apply map_lookup_filter_None; by left). lia.
  - rewrite map_filter_insert_False by (simpl; congruence).
    rewrite delete_id by done. lia.
Qed.

Lemma count_active_delete (m : gmap string Token.t) k t :
  m !! k = Some t →
  count_active (delete k m) = count_active m - Z.b2z (Token.is_active t).
Proof.
  intros Hk.
  rewrite <- (insert_delete_id m k t) at 2 by done.
  rewrite count_active_insert_fresh by apply lookup_delete_eq. lia.
Qed.

Lemma count_active_insert (m : gmap string Token.t) k t t' :
  m !! k = Some t →
  count_active (<[k := t']> m)
  = count_active m - Z.b2z (Token.is_active t) + Z.b2z (Token.is_active t').
Proof.
  intros Hk. rewrite <- insert_delete_eq.
  rewrite count_active_insert_fresh by apply lookup_delete_eq.
  by rewrite (count_active_delete m k t).
Qed.

Lemma count_active_alter (m : gmap string Token.t) f k t :
  m !! k = Some t →
  count_active (alter f k m)
  = count_active m - Z.b2z (Token.is_active t) + Z.b2z (Token.is_active (f t)).
Proof.
  intros Hk.
  assert (alter f k m = <[k := f t]> m) as ->.
  { apply map_eq; intros j. destruct (decide (k = j)) as [<-|Hne].
    - by rewrite lookup_alter_eq, lookup_insert_eq, Hk.
    - by rewrite lookup_alter_ne, lookup_insert_ne. }
  by apply count_active_insert.
Qed.

(** ** One operation: the counter and the flags move together *)

Lemma transition_range o before after :
  transition o before after = 1 ∨ transition o before after = 0
  ∨ transition o before after = -1.
Proof.
  unfold transition.
  destruct (active_at (target o) after), (active_at (target o) before);
    simpl; lia.
Qed.

(** From any state, whether its counter is right or not, an operation adds to
    [active_tokens] the change of the [is_active] flag of its token: the
    counter is adjusted, not recomputed. *)
Lemma step_active_tokens self o :
  fresh self o = true →
  get_active_token_count (step self o)
  = get_active_token_count self + transition o self (step self o).
Proof.
  unfold transition, active_at, get_active_token_count.
  op_cases o token_id; simpl.
  - intros ->%bool_decide_eq_true. rewrite lookup_insert_eq. simpl. lia.
  - intros _. unfold revoke_token.
    token_cases self token_id; [|simpl; rewrite ?Ht; simpl; lia].
    destruct (Token.is_active t) eqn:Hact; simpl;
      rewrite lookup_alter_eq, Ht; simpl; lia.
  - intros _. unfold activate_token.
    token_cases self token_id; [|simpl; rewrite ?Ht; simpl; lia].
    destruct (Token.is_active t) eqn:Hact; simpl;
      rewrite lookup_alter_eq, Ht; simpl; lia.
  - intros _. unfold delete_token.
    token_cases self token_id; [|simpl; rewrite ?Ht; simpl; lia].
    destruct (Token.is_active t) eqn:Hact; simpl;
      rewrite lookup_delete_eq; simpl; lia.
  - intros _. unfold log_usage.
    token_cases self (token_id_of token);
      [|simpl; rewrite ?Ht; simpl; lia].
    simpl. rewrite lookup_alter_eq, Ht. simpl. lia.
Qed.

Lemma step_count_active self o :
  fresh self o = true →
  count_active (Db.tokens (data (step self o)))
  = count_active (Db.tokens (data self)) + transition o self (step self o).
Proof.
  unfold transition, active_at.
  op_cases o token_id; simpl.
  - intros Hk%bool_decide_eq_true. rewrite lookup_insert_eq, Hk. simpl.
    rewrite count_active_insert_fresh by done. simpl. lia.
  - intros _. unfold revoke_token.
    token_cases self token_id; [|simpl; rewrite ?Ht; simpl; lia].
    destruct (Token.is_active t) eqn:Hact; simpl;
      rewrite lookup_alter_eq, Ht, (count_active_alter _ _ _ t) by done;
      simpl; rewrite Hact; simpl; lia.
  - intros _. unfold activate_token.
    token_cases self token_id; [|simpl; rewrite ?Ht; simpl; lia].
    destruct (Token.is_active t) eqn:Hact; simpl;
      rewrite lookup_alter_eq, Ht, (count_active_alter _ _ _ t) by done;
      simpl; rewrite Hact; simpl; lia.
  - intros _. unfold delete_token.
    token_cases self token_id; [|simpl; rewrite ?Ht; simpl; lia].
    destruct (Token.is_active t) eqn:Hact; simpl;
      rewrite lookup_delete_eq, (count_active_delete _ _ t) by done;
      simpl; rewrite Hact; simpl; lia.
  - intros _. unfold log_usage.
    token_cases self (token_id_of token);
      [|simpl; rewrite ?Ht; simpl; lia].
    simpl. rewrite lookup_alter_eq, Ht, (count_active_alter _ _ _ t) by done.
    simpl. lia.
Qed.

(** An operation leaves the flags of the other tokens alone. *)
Lemma step_active_at_other self o token_id :
  token_id ≠ target o →
  active_at token_id (step self o) = active_at token_id self.
Proof.
  unfold active_at.
  op_cases o tid; simpl; intros Hne.
  - by rewrite lookup_insert_ne.
  - unfold revoke_token.
    destruct (Db.tokens (data self) !! tid) as [t|]; simpl; [|done].
    destruct (Token.is_active t); simpl; by rewrite lookup_alter_ne.
  - unfold activate_token.
    destruct (Db.tokens (data self) !! tid) as [t|]; simpl; [|done].
    destruct (Token.is_active t); simpl; by rewrite lookup_alter_ne.
  - unfold delete_token.
    destruct (Db.tokens (data self) !! tid) as [t|]; simpl; [|done].
    destruct (Token.is_active t); simpl; by rewrite lookup_delete_ne.
  - unfold log_usage.
    destruct (Db.tokens (data self) !! token_id_of token) as [t|]; simpl; [|done].
    by rewrite lookup_alter_ne.
Qed.

Lemma step_counter_exact self o :
  fresh self o = true → counter_exact self → counter_exact (step self o).
Proof.
  unfold counter_exact. intros Hf Hc.
  rewrite step_active_tokens, step_count_active by done. lia.
Qed.

Lemma fresh_run_app self ops1 ops2 :
  fresh_run self (ops1 ++ ops2)
  = fresh_run self ops1 && fresh_run (run self ops1) ops2.
Proof.
  revert self. induction ops1 as [|o ops1 IH]; intros self; simpl; [done|].
  rewrite IH. by rewrite andb_assoc.
Qed.

Lemma run_counter_exact self ops :
  fresh_run self ops = true → counter_exact self → counter_exact (run self ops).
Proof.
  revert self. induction ops as [|o ops IH]; intros self; simpl; [done|].
  intros [Hf Hr]%andb_true_iff Hc. apply IH; [done|].
  by apply step_counter_exact.
Qed.

Lemma empty_store_counter_exact : counter_exact empty_store.
Proof. unfold counter_exact. simpl. by rewrite count_active_empty. Qed.

(** C1.  Take any sequence of operations on the empty store in which the
    identifier of each generated token is new to the store, and any
    operation [o] of it, run after the operations [pre].  After [o],
    [stats.active_tokens] is the number of token records whose [is_active]
    is true; [o] changed [stats.active_tokens] by the change of the
    [is_active] flag of its token, counting an absent token as inactive,
    which is +1, 0 or -1; and no other token changed its flag.  The
    counter is adjusted, not recomputed: run from any state, whatever its
    counter, [o] adds the same change to it. *)
Theorem active_tokens_counts_active_flags (pre : list op) (o : op) (post : list op) :
  fresh_run empty_store (pre ++ o :: post) = true →
  let before := run empty_store pre in
  let after := step before o in
  get_active_token_count after = count_active (Db.tokens (data after))
  ∧ get_active_token_count after - get_active_token_count before
    = transition o before after
  ∧ (transition o before after = 1 ∨ transition o before after = 0
     ∨ transition o before after = -1)
  ∧ (∀ token_id, token_id ≠ target o →
       active_at token_id after = active_at token_id before)
  ∧ (∀ self, fresh self o = true →
       get_active_token_count (step self o)
       = get_active_token_count self + transition o self (step self o)).
Proof.
  intros Hf before after. rewrite fresh_run_app in Hf. simpl in Hf.
  apply andb_true_iff in Hf as [Hpre [Ho _]%andb_true_iff].
  assert (counter_exact before) as Hb
    by (apply run_counter_exact; [done | apply empty_store_counter_exact]).
  split; [by apply step_counter_exact|].
  split; [subst after; rewrite step_active_tokens by done; lia|].
  split; [apply transition_range|].
  split; [intros token_id Hne; by apply step_active_at_other|].
  intros self Hself. by apply step_active_tokens.
Qed.

(** ** Usage of an unknown token *)

(** C2.  When the identifier derived from the secret is not a key of the
    token map, [log_usage] returns the object it was given: the token
    records, the usage log, the global statistics and the saved file are
    those of before, and the call returns normally. *)
Theorem log_usage_unknown_token_is_dropped (self : DashboardDatabase)
    (token model : string) (tokens_used : Z) (ip : string) (env : usage_env) :
  Db.tokens (data self) !! token_id_of token = None →
  log_usage self token model tokens_used ip env = self.
Proof. intros Hnone. unfold log_usage. by rewrite Hnone. Qed.

(** ** Revoking and activating *)

Lemma alter_present (m : gmap string Token.t) f k t :
  m !! k = Some t → alter f k m = <[k := f t]> m.
Proof.
  intros Hk. apply map_eq; intros j. destruct (decide (k = j)) as [<-|Hne].
  - by rewrite lookup_alter_eq, lookup_insert_eq, Hk.
  - by rewrite lookup_alter_ne, lookup_insert_ne.
Qed.

Lemma revoke_token_present self token_id t :
  Db.tokens (data self) !! token_id = Some t →
  revoke_token self token_id
  = (true,
     let d := Db.mk (<[token_id := with_is_active false t]> (Db.tokens (data self)))
                    (Db.usage_logs (data self))
                    (with_active_tokens
                       (GlobalStats.active_tokens (Db.stats (data self))
                        - Z.b2z (Token.is_active t))
                       (Db.stats (data self))) in
     mkDashboardDatabase d (Some (Document (StoreDoc d)))).
Proof.
  intros Ht. unfold revoke_token. rewrite Ht.
  destruct self as [[m logs [r k a]] file]; simpl in *.
  destruct (Token.is_active t); simpl;
    unfold _save_data, with_data, set_is_active, with_tokens, with_active_tokens;
    simpl; rewrite (alter_present _ _ _ t) by done;
    repeat f_equal; lia.
Qed.

Lemma activate_token_present self token_id t :
  Db.tokens (data self) !! token_id = Some t →
  activate_token self token_id
  = (true,
     let d := Db.mk (<[token_id := with_is_active true t]> (Db.tokens (data self)))
                    (Db.usage_logs (data self))
                    (with_active_tokens
                       (GlobalStats.active_tokens (Db.stats (data self))
                        + Z.b2z (negb (Token.is_active t)))
                       (Db.stats (data self))) in
     mkDashboardDatabase d (Some (Document (StoreDoc d)))).
Proof.
  intros Ht. unfold activate_token. rewrite Ht.
  destruct self as [[m logs [r k a]] file]; simpl in *.
  destruct (Token.is_active t); simpl;
    unfold _save_data, with_data, set_is_active, with_tokens, with_active_tokens;
    simpl; rewrite (alter_present _ _ _ t) by done;
    repeat f_equal; lia.
Qed.

(** C6.  [revoke_token] returns true when the token exists, active or not,
    and false exactly when it does not exist; revoking an inactive token
    leaves [stats.active_tokens] as it was; and a second revocation returns
    what the first returned and leaves the object as the first left it. *)
Theorem revoke_token_idempotent (self : DashboardDatabase) (token_id : string) :
  let once := revoke_token self token_id in
  let twice := revoke_token once.2 token_id in
  (is_Some (Db.tokens (data self) !! token_id) → once.1 = true)
  ∧ (once.1 = false ↔ Db.tokens (data self) !! token_id = None)
  ∧ (∀ t, Db.tokens (data self) !! token_id = Some t →
          Token.is_active t = false →
          once.1 = true
          ∧ get_active_token_count once.2 = get_active_token_count self)
  ∧ twice = once.
Proof.
  intros once twice. subst twice once.
  token_cases self token_id.
  - rewrite (revoke_token_present self token_id t) by done. simpl.
    split; [done|]. split; [split; done|].
    split.
    { intros t' [= <-] Hact. split; [done|].
      unfold get_active_token_count. simpl. rewrite Hact. simpl. lia. }
    erewrite revoke_token_present by (simpl; apply lookup_insert_eq).
    simpl. rewrite insert_insert_eq.
    unfold with_active_tokens. simpl.
    replace (GlobalStats.active_tokens (Db.stats (data self))
             - Z.b2z (Token.is_active t) - 0)
      with (GlobalStats.active_tokens (Db.stats (data self))
            - Z.b2z (Token.is_active t)) by lia.
    done.
  - unfold revoke_token. rewrite Ht. simpl. rewrite Ht.
    split; [by intros [? ?]|]. split; [done|]. split; [done|done].
Qed.

(** C10.  For a token that is in the store, [revoke_token] and
    [activate_token] change nothing but the [is_active] field of this token
    and [stats.active_tokens]: the other token records, the other fields of
    this record, the usage log, [stats.total_requests] and
    [stats.total_tokens] are those of before. *)
Theorem revoke_activate_frame (self : DashboardDatabase) (token_id : string)
    (t : Token.t) (after : DashboardDatabase) :
  Db.tokens (data self) !! token_id = Some t →
  after = (revoke_token self token_id).2
  ∨ after = (activate_token self token_id).2 →
  (∀ other, other ≠ token_id →
     Db.tokens (data after) !! other = Db.tokens (data self) !! other)
  ∧ (∃ b, Db.tokens (data after) !! token_id = Some (with_is_active b t))
  ∧ (∃ t', Db.tokens (data after) !! token_id = Some t'
           ∧ Token.key t' = Token.key t
           ∧ Token.created_at t' = Token.created_at t
           ∧ Token.last_used t' = Token.last_used t
           ∧ Token.user_info t' = Token.user_info t
           ∧ Token.usage_stats t' = Token.usage_stats t)
  ∧ Db.usage_logs (data after) = Db.usage_logs (data self)
  ∧ GlobalStats.total_requests (Db.stats (data after))
    = GlobalStats.total_requests (Db.stats (data self))
  ∧ GlobalStats.total_tokens (Db.stats (data after))
    = GlobalStats.total_tokens (Db.stats (data self)).
Proof.
  intros Ht [-> | ->];
    [rewrite (revoke_token_present self token_id t) by done
    |rewrite (activate_token_present self token_id t) by done];
    simpl.
  all: split; [intros other Hne; by rewrite lookup_insert_ne|].
  all: rewrite lookup_insert_eq.
  all: split; [by eexists|].
  all: split; [eexists; split; [reflexivity|done]|done].
Qed.

(** ** The last items of a list *)

Lemma lastn_all {A} (n : nat) (l : list A) :
  (length l ≤ n)%nat → lastn n l = l.
Proof. intros Hle. unfold lastn. by replace (length l - n)%nat with 0%nat by lia. Qed.

Lemma length_lastn {A} (n : nat) (l : list A) :
  length (lastn n l) = Nat.min n (length l).
Proof. unfold lastn. rewrite length_drop. lia. Qed.

Lemma lastn_app_lastn {A} (n : nat) (l x : list A) :
  lastn n (lastn n l ++ x) = lastn n (l ++ x).
Proof.
  destruct (decide (length l ≤ n)%nat) as [Hle|Hgt].
  - by rewrite (lastn_all n l).
  - unfold lastn. rewrite !length_app, length_drop.
    rewrite <- (drop_app_le l x) by lia. rewrite drop_drop. f_equal. lia.
Qed.

Lemma append_log_lastn e logs :
  append_log e logs = lastn LOG_CAP (logs ++ [e]).
Proof.
  unfold append_log. case_bool_decide as Hlen; [done|].
  by rewrite lastn_all by lia.
Qed.

(** ** The usage log along a run *)

Lemma step_usage_logs self o :
  Db.usage_logs (data (step self o))
  = match recorded self o with
    | Some e => lastn LOG_CAP (Db.usage_logs (data self) ++ [e])
    | None => Db.usage_logs (data self)
    end.
Proof.
  op_cases o token_id; simpl; try done.
  - unfold revoke_token. destruct (_ !! token_id) as [t|]; [|done].
    by destruct (Token.is_active t).
  - unfold activate_token. destruct (_ !! token_id) as [t|]; [|done].
    by destruct (Token.is_active t).
  - unfold delete_token. destruct (_ !! token_id) as [t|]; [|done].
    by destruct (Token.is_active t).
  - unfold log_usage. destruct (_ !! token_id_of token) as [t|]; [|done].
    simpl. apply append_log_lastn.
Qed.

Lemma step_usage_logs_capped self o :
  (length (Db.usage_logs (data self)) ≤ LOG_CAP)%nat →
  (length (Db.usage_logs (data (step self o))) ≤ LOG_CAP)%nat.
Proof.
  intros Hle. rewrite step_usage_logs. destruct (recorded self o); [|done].
  rewrite length_lastn. lia.
Qed.

Lemma run_usage_logs self ops :
  (length (Db.usage_logs (data self)) ≤ LOG_CAP)%nat →
  Db.usage_logs (data (run self ops))
  = lastn LOG_CAP (Db.usage_logs (data self) ++ events self ops).
Proof.
  revert self. induction ops as [|o ops IH]; intros self Hle; simpl.
  - by rewrite app_nil_r, lastn_all.
  - rewrite IH by by apply step_usage_logs_capped.
    rewrite step_usage_logs. destruct (recorded self o) as [e|]; simpl; [|done].
    by rewrite lastn_app_lastn, <- app_assoc.
Qed.

Lemma step_totals self o :
  GlobalStats.total_requests (Db.stats (data (step self o)))
  = GlobalStats.total_requests (Db.stats (data self))
    + Z.of_nat (length (option_list (recorded self o)))
  ∧ GlobalStats.total_tokens (Db.stats (data (step self o)))
    = GlobalStats.total_tokens (Db.stats (data self))
      + sumZ (UsageLog.tokens <$> option_list (recorded self o)).
Proof.
  op_cases o token_id; simpl.
  - lia.
  - unfold revoke_token. destruct (_ !! token_id) as [t|]; [|simpl; lia].
    destruct (Token.is_active t); simpl; lia.
  - unfold activate_token. destruct (_ !! token_id) as [t|]; [|simpl; lia].
    destruct (Token.is_active t); simpl; lia.
  - unfold delete_token. destruct (_ !! token_id) as [t|]; [|simpl; lia].
    destruct (Token.is_active t); simpl; lia.
  - unfold log_usage. destruct (_ !! token_id_of token) as [t|]; simpl; lia.
Qed.

Lemma run_totals self ops :
  GlobalStats.total_requests (Db.stats (data (run self ops)))
  = GlobalStats.total_requests (Db.stats (data self))
    + Z.of_nat (length (events self ops))
  ∧ GlobalStats.total_tokens (Db.stats (data (run self ops)))
    = GlobalStats.total_tokens (Db.stats (data self))
      + sumZ (UsageLog.tokens <$> events self ops).
Proof.
  revert self. induction ops as [|o ops IH]; intros self; simpl; [lia|].
  destruct (IH (step self o)) as [-> ->].
  destruct (step_totals self o) as [-> ->].
  rewrite fmap_app, length_app. unfold sumZ. rewrite foldr_app.
  split; [lia|].
  destruct (recorded self o); simpl; lia.
Qed.

(** C3.  Run any operations [pre] and then [o] on the empty store, and let
    [all] be the usage events recorded so far, oldest first.  The usage log
    has at most 10,000 entries and is the last 10,000 of [all]; when [o]
    records an event [e], the log is the last 10,000 entries of the log of
    before followed by [e], [stats.total_requests] has grown by one and
    [stats.total_tokens] by the tokens of [e], whether or not entries were
    dropped; the two counters are the number of events recorded and the sum
    of their tokens; and once 10,001 events are recorded the log has 10,000
    entries, the oldest being the second event recorded.  Also from a state
    that no such run reaches, the log has at most 10,000 entries after an
    event is recorded. *)
Theorem usage_log_keeps_last_10000 (pre : list op) (o : op) :
  let before := run empty_store pre in
  let after := step before o in
  let all := events empty_store (pre ++ [o]) in
  LOG_CAP = Z.to_nat 10000
  ∧ (length (Db.usage_logs (data after)) ≤ LOG_CAP)%nat
  ∧ Db.usage_logs (data after) = lastn LOG_CAP all
  ∧ (∀ e, recorded before o = Some e →
       Db.usage_logs (data after) = lastn LOG_CAP (Db.usage_logs (data before) ++ [e])
       ∧ GlobalStats.total_requests (Db.stats (data after))
         = GlobalStats.total_requests (Db.stats (data before)) + 1
       ∧ GlobalStats.total_tokens (Db.stats (data after))
         = GlobalStats.total_tokens (Db.stats (data before)) + UsageLog.tokens e)
  ∧ GlobalStats.total_requests (Db.stats (data after)) = Z.of_nat (length all)
  ∧ GlobalStats.total_tokens (Db.stats (data after)) = sumZ (UsageLog.tokens <$> all)
  ∧ (length all = S LOG_CAP →
       length (Db.usage_logs (data after)) = LOG_CAP
       ∧ head (Db.usage_logs (data after)) = all !! 1%nat)
  ∧ (∀ self e, recorded self o = Some e →
       (length (Db.usage_logs (data (step self o))) ≤ LOG_CAP)%nat).
Proof.
  intros before after all.
  assert (after = run empty_store (pre ++ [o])) as Hafter
    by (subst after before; unfold run; by rewrite foldl_snoc).
  assert (Db.usage_logs (data after) = lastn LOG_CAP all) as Hlogs.
  { rewrite Hafter. subst all. rewrite run_usage_logs by (simpl; lia). done. }
  split; [done|].
  split; [rewrite Hlogs, length_lastn; lia|].
  split; [done|].
  split.
  { intros e He. unfold after. rewrite step_usage_logs, He.
    destruct (step_totals before o) as [-> ->]. rewrite He. simpl.
    split; [done|]. unfold sumZ. simpl. lia. }
  destruct (run_totals empty_store (pre ++ [o])) as [Hr Ht].
  rewrite <- Hafter in Hr, Ht. simpl in Hr, Ht.
  split; [subst all; lia|]. split; [subst all; lia|].
  split.
  - intros Hlen. rewrite Hlogs. split.
    + rewrite length_lastn. lia.
    + unfold lastn. rewrite head_lookup, lookup_drop, Hlen.
      by replace (S LOG_CAP - LOG_CAP + 0)%nat with 1%nat by lia.
  - intros self e He. rewrite step_usage_logs, He, length_lastn. lia.
Qed.

(** ** The IP addresses of a token *)

Lemma track_ip_present ip l : ip ∈ l → track_ip ip l = l.
Proof. intros Hin. unfold track_ip. by rewrite bool_decide_eq_true_2. Qed.

Lemma track_ip_absent ip l :
  ip ∉ l → (length l ≤ IP_CAP)%nat → track_ip ip l = lastn IP_CAP (l ++ [ip]).
Proof.
  intros Hnin Hle. unfold track_ip, lastn.
  rewrite bool_decide_eq_false_2 by done. rewrite length_app. simpl.
  case_bool_decide as Hlen.
  - f_equal. lia.
  - by replace (length l + 1 - IP_CAP)%nat with 0%nat by lia.
Qed.

Lemma NoDup_lastn {A} (n : nat) (l : list A) : NoDup l → NoDup (lastn n l).
Proof. intros Hl. eapply sublist_NoDup; [done|apply sublist_drop]. Qed.

Lemma track_ip_bounded ip l :
  NoDup l ∧ (length l ≤ IP_CAP)%nat →
  NoDup (track_ip ip l) ∧ (length (track_ip ip l) ≤ IP_CAP)%nat.
Proof.
  intros [Hnd Hle]. destruct (decide (ip ∈ l)) as [Hin|Hnin].
  - by rewrite track_ip_present.
  - rewrite track_ip_absent by done. split.
    + apply NoDup_lastn, NoDup_app. split; [done|]. split; [|apply NoDup_singleton].
      intros x Hx ->%list_elem_of_singleton. done.
    + rewrite length_lastn. lia.
Qed.

(** Where the record of a token after an operation comes from. *)
Lemma step_ips_of self o token_id :
  ips_of token_id (step self o) = []
  ∨ ips_of token_id (step self o) = ips_of token_id self
  ∨ ∃ ip, ips_of token_id (step self o) = track_ip ip (ips_of token_id self).
Proof.
  unfold ips_of.
  op_cases o tid; simpl.
  - destruct (decide (token_id_of ("lma_" +:+ urlsafe) = token_id)) as [<-|Hne].
    + left. by rewrite lookup_insert_eq.
    + right; left. by rewrite lookup_insert_ne.
  - right; left. unfold revoke_token.
    token_cases self tid; [|done].
    destruct (decide (tid = token_id)) as [<-|Hne];
      destruct (Token.is_active t); simpl;
      rewrite ?lookup_alter_eq, ?Ht, ?lookup_alter_ne by done; done.
  - right; left. unfold activate_token.
    token_cases self tid; [|done].
    destruct (decide (tid = token_id)) as [<-|Hne];
      destruct (Token.is_active t); simpl;
      rewrite ?lookup_alter_eq, ?Ht, ?lookup_alter_ne by done; done.
  - unfold delete_token.
    token_cases self tid; [|by right; left].
    destruct (decide (tid = token_id)) as [<-|Hne].
    + left. destruct (Token.is_active t); simpl; by rewrite lookup_delete_eq.
    + right; left. destruct (Token.is_active t); simpl; by rewrite lookup_delete_ne.
  - unfold log_usage.
    token_cases self (token_id_of token);
      [|by right; left].
    simpl. destruct (decide (token_id_of token = token_id)) as [<-|Hne].
    + right; right. exists ip. by rewrite lookup_alter_eq, Ht.
    + right; left. by rewrite lookup_alter_ne.
Qed.

Lemma run_ips_bounded self ops token_id :
  NoDup (ips_of token_id self) ∧ (length (ips_of token_id self) ≤ IP_CAP)%nat →
  NoDup (ips_of token_id (run self ops))
  ∧ (length (ips_of token_id (run self ops)) ≤ IP_CAP)%nat.
Proof.
  revert self. induction ops as [|o ops IH]; intros self Hself; simpl; [done|].
  apply IH.
  destruct (step_ips_of self o token_id) as [-> | [-> | [ip ->]]].
  - split; [apply NoDup_nil_2 | simpl; lia].
  - done.
  - by apply track_ip_bounded.
Qed.

(** An operation that keeps the token records, on this token, the IP
    address of a usage event and nothing else. *)
Lemma step_ips_of_kept self o token_id :
  is_Some (Db.tokens (data self) !! token_id) →
  keeps token_id o = true →
  is_Some (Db.tokens (data (step self o)) !! token_id)
  ∧ ips_of token_id (step self o)
    = foldl (λ l ip, track_ip ip l) (ips_of token_id self)
            (ips_recorded token_id [o]).
Proof.
  intros [t0 Ht0]. unfold ips_of, ips_recorded.
  op_cases o tid; simpl.
  - intros Hne%bool_decide_eq_true. by rewrite lookup_insert_ne, Ht0.
  - intros _. unfold revoke_token.
    token_cases self tid; [|simpl; by rewrite Ht0].
    destruct (decide (tid = token_id)) as [<-|Hne];
      destruct (Token.is_active t); simpl;
      rewrite ?lookup_alter_eq, ?lookup_alter_ne, ?Ht, ?Ht0 by done;
      simplify_eq; done.
  - intros _. unfold activate_token.
    token_cases self tid; [|simpl; by rewrite Ht0].
    destruct (decide (tid = token_id)) as [<-|Hne];
      destruct (Token.is_active t); simpl;
      rewrite ?lookup_alter_eq, ?lookup_alter_ne, ?Ht, ?Ht0 by done;
      simplify_eq; done.
  - intros Hne%bool_decide_eq_true. unfold delete_token.
    token_cases self tid; [|simpl; by rewrite Ht0].
    destruct (Token.is_active t); simpl; by rewrite lookup_delete_ne, Ht0.
  - intros _. unfold log_usage. case_bool_decide as Hid.
    + subst token_id. rewrite Ht0. simpl. by rewrite lookup_alter_eq, Ht0.
    + token_cases self (token_id_of token);
        simpl; [by rewrite lookup_alter_ne, Ht0 | by rewrite Ht0].
Qed.

Lemma ips_recorded_cons token_id o ops :
  ips_recorded token_id (o :: ops)
  = ips_recorded token_id [o] ++ ips_recorded token_id ops.
Proof.
  unfold ips_recorded. destruct o; simpl; try done. by case_bool_decide.
Qed.

Lemma run_ips_of_kept self ops token_id :
  is_Some (Db.tokens (data self) !! token_id) →
  forallb (keeps token_id) ops = true →
  is_Some (Db.tokens (data (run self ops)) !! token_id)
  ∧ ips_of token_id (run self ops)
    = foldl (λ l ip, track_ip ip l) (ips_of token_id self)
            (ips_recorded token_id ops).
Proof.
  revert self. induction ops as [|o ops IH]; intros self Hself; [done|].
  intros [Ho Hops]%andb_true_iff.
  destruct (step_ips_of_kept self o token_id Hself Ho) as [Hsome Hips].
  destruct (IH (step self o) Hsome Hops) as [Hsome' Hips'].
  split; [done|].
  rewrite ips_recorded_cons, foldl_app, <- Hips. apply Hips'.
Qed.

Lemma foldl_track_ip_distinct ips :
  NoDup ips → foldl (λ l ip, track_ip ip l) [] ips = lastn IP_CAP ips.
Proof.
  induction ips as [|ip ips IH] using rev_ind; intros Hnd; [done|].
  apply NoDup_app in Hnd as (Hnd & Hnin & _).
  rewrite foldl_snoc, IH by done.
  rewrite track_ip_absent, lastn_app_lastn; [done| |rewrite length_lastn; lia].
  intros Hin. apply (Hnin ip); [|by apply list_elem_of_singleton].
  eapply elem_of_sublist; [apply Hin|apply sublist_drop].
Qed.

Lemma log_usage_ips_of self token model tokens_used ip env :
  is_Some (Db.tokens (data self) !! token_id_of token) →
  ips_of (token_id_of token) (log_usage self token model tokens_used ip env)
  = track_ip ip (ips_of (token_id_of token) self).
Proof.
  intros [t Ht]. unfold ips_of, log_usage. rewrite Ht. simpl.
  by rewrite lookup_alter_eq, Ht.
Qed.

(** C5.  (1) After any operations on the empty store, the [ip_addresses] of
    every token has no duplicates and at most 100 entries.  (2) A
    [log_usage] call on a token of the store leaves the list as it is when
    the IP is in it, and otherwise appends the IP; when the list had 100
    entries, the entry at index 0 is dropped.  (3) When usage events from
    distinct IPs are recorded for a token whose list is empty, among
    operations that neither delete this token nor generate it anew, the list
    is the last 100 of these IPs; after 101 of them it has 100 entries and the
    first IP is not among them. *)
Theorem ip_addresses_bounded_and_distinct :
  IP_CAP = 100%nat
  ∧ (∀ ops token_id t,
       Db.tokens (data (run empty_store ops)) !! token_id = Some t →
       NoDup (UsageStats.ip_addresses (Token.usage_stats t))
       ∧ (length (UsageStats.ip_addresses (Token.usage_stats t)) ≤ IP_CAP)%nat)
  ∧ (∀ self token model tokens_used ip env,
       is_Some (Db.tokens (data self) !! token_id_of token) →
       let before := ips_of (token_id_of token) self in
       let after := ips_of (token_id_of token)
                           (log_usage self token model tokens_used ip env) in
       (ip ∈ before → after = before)
       ∧ (ip ∉ before → (length before < IP_CAP)%nat → after = before ++ [ip])
       ∧ (ip ∉ before → length before = IP_CAP → after = drop 1 before ++ [ip]))
  ∧ (∀ self token_id ops,
       is_Some (Db.tokens (data self) !! token_id) →
       ips_of token_id self = [] →
       forallb (keeps token_id) ops = true →
       NoDup (ips_recorded token_id ops) →
       let after := ips_of token_id (run self ops) in
       after = lastn IP_CAP (ips_recorded token_id ops)
       ∧ (length (ips_recorded token_id ops) = S IP_CAP →
            length after = IP_CAP
            ∧ ∀ first, head (ips_recorded token_id ops) = Some first →
                       first ∉ after)).
Proof.
  split; [done|]. split; [|split].
  - intros ops token_id t Ht.
    pose proof (run_ips_bounded empty_store ops token_id) as Hb.
    unfold ips_of in Hb. rewrite Ht in Hb. apply Hb. simpl.
    rewrite lookup_empty. split; [apply NoDup_nil_2 | simpl; lia].
  - intros self token model tokens_used ip env Hsome before after.
    subst after. rewrite log_usage_ips_of by done. fold before.
    split; [apply track_ip_present|]. split.
    + intros Hnin Hlt. rewrite track_ip_absent by (done || lia).
      apply lastn_all. rewrite length_app. simpl. lia.
    + intros Hnin Hlen. rewrite track_ip_absent by (done || lia).
      unfold lastn. rewrite length_app, Hlen. simpl.
      replace (IP_CAP + 1 - IP_CAP)%nat with 1%nat by lia.
      rewrite drop_app_le by (rewrite Hlen; unfold IP_CAP; lia). done.
  - intros self token_id ops Hsome Hempty Hkeeps Hnd after.
    assert (after = lastn IP_CAP (ips_recorded token_id ops)) as Hafter.
    { subst after.
      destruct (run_ips_of_kept self ops token_id Hsome Hkeeps) as [_ ->].
      rewrite Hempty. by apply foldl_track_ip_distinct. }
    split; [done|]. intros Hlen. rewrite Hafter. split.
    + rewrite length_lastn. lia.
    + intros first Hfirst Hin. unfold lastn in Hin. rewrite Hlen in Hin.
      replace (S IP_CAP - IP_CAP)%nat with 1%nat in Hin by lia.
      destruct (ips_recorded token_id ops) as [|x rest]; [done|].
      simpl in Hfirst. injection Hfirst as ->. simpl in Hin.
      rewrite drop_0 in Hin. by apply NoDup_cons in Hnd as [Hnin _].
Qed.

(** ** The token-info endpoint *)

(** C9.  When the identifier derived from the secret is in the store, the
    response of the token-info endpoint has exactly the members
    [created_at], [last_used], [is_active] and [usage_stats], with the values
    of the stored record; it has no [key] member, and it is the same
    whatever secret and display metadata the record holds.  When the
    identifier is not in the store, the endpoint fails with status 404. *)
Theorem token_info_has_four_fields_and_no_secret (db : DashboardDatabase)
    (token : string) :
  match Db.tokens (data db) !! token_id_of token with
  | Some t =>
      ∃ response,
        get_token_info_endpoint db token = Ok response
        ∧ response = [ ("created_at", VDatetime (Token.created_at t));
                       ("last_used", VOptDatetime (Token.last_used t));
                       ("is_active", VBool (Token.is_active t));
                       ("usage_stats", VUsageStats (Token.usage_stats t)) ]
        ∧ member_names response
          = ["created_at"; "last_used"; "is_active"; "usage_stats"]
        ∧ ("key" ∉ member_names response)
        ∧ (∀ key user_info,
             let t' := with_key_and_user_info key user_info t in
             let db' := with_data (with_tokens (<[token_id_of token := t']>
                                                  (Db.tokens (data db)))
                                               (data db)) db in
             get_token_info_endpoint db' token = Ok response)
  | None =>
      get_token_info_endpoint db token = HTTPException 404 "Token not found"
  end.
Proof.
  unfold get_token_info_endpoint, get_token_info.
  destruct (Db.tokens (data db) !! token_id_of token) as [t|] eqn:Ht; [|done].
  eexists. split; [reflexivity|]. split; [reflexivity|].
  split; [reflexivity|]. split.
  - unfold member_names. simpl. intros Hin.
    repeat (apply elem_of_cons in Hin as [Hin|Hin]; [discriminate Hin|]).
    by apply elem_of_nil in Hin.
  - intros key user_info. simpl. by rewrite lookup_insert_eq.
Qed.

(** The usage events of a token of the store are all recorded. *)
Lemma events_all_recorded self token ops :
  is_Some (Db.tokens (data self) !! token_id_of token) →
  Forall (λ o, ∃ model tokens_used ip env,
            o = LogUsage token model tokens_used ip env) ops →
  length (events self ops) = length ops.
Proof.
  intros Hsome Hops. revert self Hsome.
  induction Hops as [|o ops (model & tokens_used & ip & env & ->) _ IH];
    intros self [t Ht]; [done|].
  simpl. rewrite Ht. simpl. f_equal. apply IH.
  unfold log_usage. rewrite Ht. simpl. rewrite lookup_alter_eq, Ht. by eexists.
Qed.

(** ** Deleting a token *)

Lemma delete_token_present self token_id t :
  Db.tokens (data self) !! token_id = Some t →
  delete_token self token_id
  = (true,
     let d := Db.mk (delete token_id (Db.tokens (data self)))
                    (Db.usage_logs (data self))
                    (with_active_tokens
                       (GlobalStats.active_tokens (Db.stats (data self))
                        - Z.b2z (Token.is_active t))
                       (Db.stats (data self))) in
     mkDashboardDatabase d (Some (Document (StoreDoc d)))).
Proof.
  intros Ht. unfold delete_token. rewrite Ht.
  destruct self as [[m logs [r k a]] file]; simpl in *.
  destruct (Token.is_active t); simpl;
    unfold _save_data, with_data, with_tokens, with_active_tokens; simpl;
    repeat f_equal; lia.
Qed.

(** X1.  [delete_token] returns true exactly when the token is in the
    store.  Afterwards the token is absent, every other record, the usage
    log and the two usage totals are as before, and [stats.active_tokens]
    has lost one exactly when the token was active.  Deleting again
    returns false and changes nothing. *)
Theorem delete_token_removes_only_the_record (self : DashboardDatabase)
    (token_id : string) :
  let after := (delete_token self token_id).2 in
  ((delete_token self token_id).1 = true
   ↔ is_Some (Db.tokens (data self) !! token_id))
  ∧ get_token_by_id after token_id = None
  ∧ (∀ other, other ≠ token_id →
       get_token_by_id after other = get_token_by_id self other)
  ∧ Db.usage_logs (data after) = Db.usage_logs (data self)
  ∧ GlobalStats.total_requests (Db.stats (data after))
    = GlobalStats.total_requests (Db.stats (data self))
  ∧ GlobalStats.total_tokens (Db.stats (data after))
    = GlobalStats.total_tokens (Db.stats (data self))
  ∧ get_active_token_count after
    = get_active_token_count self - Z.b2z (active_at token_id self)
  ∧ delete_token after token_id = (false, after).
Proof.
  intros after. subst after. unfold get_token_by_id, get_active_token_count, active_at.
  token_cases self token_id.
  - rewrite (delete_token_present self token_id t) by done. simpl.
    split; [split; [by eexists|done]|].
    split; [apply lookup_delete_eq|].
    split; [intros other Hne; by apply lookup_delete_ne|].
    repeat (split; [done|]).
    unfold delete_token. simpl. by rewrite lookup_delete_eq.
  - unfold delete_token. rewrite Ht. simpl. rewrite Ht.
    split; [split; [done|by intros [? ?]]|].
    repeat (split; [done || lia|]). done.
Qed.

(** X2.  The secret of a deleted token is dead: it does not validate, the
    token-info endpoint answers 404, and a usage event presented with it is
    dropped. *)
Theorem deleted_token_is_unknown (self : DashboardDatabase) (token : string)
    (model : string) (tokens_used : Z) (ip : string) (env : usage_env) :
  let after := (delete_token self (token_id_of token)).2 in
  validate_token after token = false
  ∧ get_token_info_endpoint after token = HTTPException 404 "Token not found"
  ∧ log_usage after token model tokens_used ip env = after.
Proof.
  intros after.
  assert (Db.tokens (data after) !! token_id_of token = None) as Hgone.
  { subst after. token_cases self (token_id_of token).
    - rewrite (delete_token_present self _ t) by done. apply lookup_delete_eq.
    - unfold delete_token. by rewrite Ht. }
  unfold validate_token, get_token_info_endpoint, get_token_info, log_usage.
  by rewrite Hgone.
Qed.

(** ** Activating and revoking *)

(** X3.  [activate_token] returns true when the token exists and false
    exactly when it does not; activating an active token leaves
    [stats.active_tokens] as it was; and a second activation returns what
    the first returned and leaves the object as the first left it. *)
Theorem activate_token_idempotent (self : DashboardDatabase) (token_id : string) :
  let once := activate_token self token_id in
  let twice := activate_token once.2 token_id in
  (is_Some (Db.tokens (data self) !! token_id) → once.1 = true)
  ∧ (once.1 = false ↔ Db.tokens (data self) !! token_id = None)
  ∧ (∀ t, Db.tokens (data self) !! token_id = Some t →
          Token.is_active t = true →
          get_active_token_count once.2 = get_active_token_count self)
  ∧ twice = once.
Proof.
  intros once twice. subst twice once.
  token_cases self token_id.
  - rewrite (activate_token_present self token_id t) by done. simpl.
    split; [done|]. split; [split; done|].
    split.
    { intros t' [= <-] Hact.
      unfold get_active_token_count. simpl. rewrite Hact. simpl. lia. }
    erewrite activate_token_present by (simpl; apply lookup_insert_eq).
    simpl. rewrite insert_insert_eq.
    unfold with_active_tokens. simpl.
    replace (GlobalStats.active_tokens (Db.stats (data self))
             + Z.b2z (negb (Token.is_active t)) + 0)
      with (GlobalStats.active_tokens (Db.stats (data self))
            + Z.b2z (negb (Token.is_active t))) by lia.
    done.
  - unfold activate_token. rewrite Ht. simpl. rewrite Ht.
    split; [by intros [? ?]|]. split; [done|]. split; [done|done].
Qed.

(** X4.  Revoking an active token and activating it again gives back the
    store as it was, and so does activating an inactive token and revoking
    it again. *)
Theorem revoke_activate_round_trip (self : DashboardDatabase) (token_id : string)
    (t : Token.t) :
  Db.tokens (data self) !! token_id = Some t →
  (Token.is_active t = true →
   data (activate_token (revoke_token self token_id).2 token_id).2 = data self)
  ∧ (Token.is_active t = false →
     data (revoke_token (activate_token self token_id).2 token_id).2 = data self).
Proof.
  intros Ht. split; intros Hact.
  - rewrite (revoke_token_present self token_id t) by done.
    erewrite activate_token_present by (simpl; apply lookup_insert_eq).
    simpl. rewrite insert_insert_eq, Hact.
    destruct self as [[m logs [r k a]] file]; simpl in *.
    unfold with_active_tokens. simpl. f_equal.
    + apply insert_id. rewrite Ht. f_equal. destruct t; simpl in *. by subst.
    + f_equal. lia.
  - rewrite (activate_token_present self token_id t) by done.
    erewrite revoke_token_present by (simpl; apply lookup_insert_eq).
    simpl. rewrite insert_insert_eq, Hact.
    destruct self as [[m logs [r k a]] file]; simpl in *.
    unfold with_active_tokens. simpl. f_equal.
    + apply insert_id. rewrite Ht. f_equal. destruct t; simpl in *. by subst.
    + f_equal. lia.
Qed.

(** X5.  A revoked token stops validating but keeps its record: the
    token-info endpoint still answers, with [is_active] false and the usage
    statistics of before.  An activated token validates. *)
Theorem revoke_invalidates_and_keeps_record (self : DashboardDatabase)
    (token : string) (t : Token.t) :
  Db.tokens (data self) !! token_id_of token = Some t →
  let revoked := (revoke_token self (token_id_of token)).2 in
  let activated := (activate_token self (token_id_of token)).2 in
  validate_token revoked token = false
  ∧ get_token_info_endpoint revoked token
    = Ok [ ("created_at", VDatetime (Token.created_at t));
           ("last_used", VOptDatetime (Token.last_used t));
           ("is_active", VBool false);
           ("usage_stats", VUsageStats (Token.usage_stats t)) ]
  ∧ validate_token activated token = true.
Proof.
  intros Ht revoked activated. subst revoked activated.
  rewrite (revoke_token_present self _ t), (activate_token_present self _ t)
    by done.
  unfold validate_token, get_token_info_endpoint, get_token_info. simpl.
  by rewrite !lookup_insert_eq.
Qed.

(** ** Generating a token *)

(** X6.  [generate_token] returns the prefix [lma_] followed by the random
    part.  The new secret finds its record, which holds the secret, is
    active, was never used and has empty usage statistics, and the secret
    validates.  The records under other identifiers, the usage log and the
    usage totals are as before, and [stats.active_tokens] has grown by
    one. *)
Theorem generate_token_creates_active_record (self : DashboardDatabase)
    (urlsafe : string) (now : datetime)
    (user_info : option (gmap string string)) :
  let token := (generate_token self urlsafe now user_info).1 in
  let after := (generate_token self urlsafe now user_info).2 in
  token = "lma_" +:+ urlsafe
  ∧ get_token_info after token
    = Some (Token.mk token now None true (default ∅ user_info)
                     (UsageStats.mk 0 0 ∅ [] ∅))
  ∧ validate_token after token = true
  ∧ (∀ other, other ≠ token_id_of token →
       get_token_by_id after other = get_token_by_id self other)
  ∧ Db.usage_logs (data after) = Db.usage_logs (data self)
  ∧ GlobalStats.total_requests (Db.stats (data after))
    = GlobalStats.total_requests (Db.stats (data self))
  ∧ GlobalStats.total_tokens (Db.stats (data after))
    = GlobalStats.total_tokens (Db.stats (data self))
  ∧ get_active_token_count after = get_active_token_count self + 1.
Proof.
  intros token after. subst token after.
  unfold validate_token, get_token_info, get_token_by_id. simpl.
  rewrite lookup_insert_eq.
  repeat (split; [done|]).
  split; [intros other Hne; by rewrite lookup_insert_ne|]. done.
Qed.

(** X7.  Generating a token whose identifier is new to the store and
    deleting it returns true and gives back the store as it was, saved to
    the file. *)
Theorem generate_delete_round_trip (self : DashboardDatabase) (urlsafe : string)
    (now : datetime) (user_info : option (gmap string string)) :
  Db.tokens (data self) !! token_id_of ("lma_" +:+ urlsafe) = None →
  let generated := generate_token self urlsafe now user_info in
  delete_token generated.2 (token_id_of generated.1)
  = (true, _save_data self).
Proof.
  intros Hfresh generated. subst generated. simpl.
  unfold delete_token. simpl. rewrite lookup_insert_eq. simpl.
  rewrite delete_insert_eq, delete_id by done.
  destruct self as [[m logs [r k a]] file]; simpl in *.
  unfold _save_data, with_data, with_tokens, with_stats, with_active_tokens.
  simpl. replace (a + 1 + -1) with a by lia. done.
Qed.

(** ** What recording usage changes *)

Lemma log_usage_present self token model tokens_used ip env t :
  Db.tokens (data self) !! token_id_of token = Some t →
  data (log_usage self token model tokens_used ip env)
  = let country := _get_country_from_ip (geo env) ip in
    Db.mk (<[token_id_of token :=
               record_on_token (now_used env) model tokens_used ip country t]>
             (Db.tokens (data self)))
          (append_log (UsageLog.mk (now_logged env) (token_id_of token) model
                                   tokens_used ip country)
                      (Db.usage_logs (data self)))
          (GlobalStats.mk
             (GlobalStats.total_requests (Db.stats (data self)) + 1)
             (GlobalStats.total_tokens (Db.stats (data self)) + tokens_used)
             (GlobalStats.active_tokens (Db.stats (data self)))).
Proof.
  intros Ht. unfold log_usage. rewrite Ht. simpl.
  by rewrite (alter_present _ _ _ t).
Qed.

(** X8.  [log_usage] never creates, deletes, activates or revokes a token:
    the identifiers of the store, the secrets that validate and
    [stats.active_tokens] are the same after any call. *)
Theorem log_usage_keeps_tokens_and_validity (self : DashboardDatabase)
    (token model : string) (tokens_used : Z) (ip : string) (env : usage_env) :
  let after := log_usage self token model tokens_used ip env in
  dom (Db.tokens (data after)) = dom (Db.tokens (data self))
  ∧ (∀ secret, validate_token after secret = validate_token self secret)
  ∧ get_active_token_count after = get_active_token_count self.
Proof.
  intros after. subst after.
  unfold validate_token, get_token_info, get_active_token_count.
  token_cases self (token_id_of token).
  - rewrite (log_usage_present self token model tokens_used ip env t) by done.
    simpl. split; [|split; [|done]].
    + apply dom_insert_lookup_L. by eexists.
    + intros secret.
      destruct (decide (token_id_of token = token_id_of secret)) as [<-|Hne].
      * by rewrite lookup_insert_eq, Ht.
      * by rewrite lookup_insert_ne.
  - unfold log_usage. by rewrite Ht.
Qed.

(** X9.  A usage event of a token of the store is recorded whether the
    token is active or not.  The record of the token gets the time of the
    call as [last_used], one more request, the tokens of the event, and the
    IP in its list; its secret, creation time, [is_active] flag and display
    metadata are as before, and so are the records of the other tokens. *)
Theorem log_usage_updates_the_token (self : DashboardDatabase)
    (token model : string) (tokens_used : Z) (ip : string) (env : usage_env)
    (t : Token.t) :
  Db.tokens (data self) !! token_id_of token = Some t →
  let after := log_usage self token model tokens_used ip env in
  (∃ t', get_token_info after token = Some t'
     ∧ Token.last_used t' = Some (now_used env)
     ∧ UsageStats.total_requests (Token.usage_stats t')
       = UsageStats.total_requests (Token.usage_stats t) + 1
     ∧ UsageStats.total_tokens (Token.usage_stats t')
       = UsageStats.total_tokens (Token.usage_stats t) + tokens_used
     ∧ ip ∈ UsageStats.ip_addresses (Token.usage_stats t')
     ∧ Token.key t' = Token.key t
     ∧ Token.created_at t' = Token.created_at t
     ∧ Token.is_active t' = Token.is_active t
     ∧ Token.user_info t' = Token.user_info t)
  ∧ (∀ other, other ≠ token_id_of token →
       get_token_by_id after other = get_token_by_id self other).
Proof.
  intros Ht after. subst after. unfold get_token_info, get_token_by_id.
  rewrite (log_usage_present self token model tokens_used ip env t) by done.
  simpl. split.
  - eexists. rewrite lookup_insert_eq. split; [reflexivity|]. simpl.
    repeat (split; [done|]). split; [|done].
    unfold track_ip. case_bool_decide as Hin; [done|].
    case_bool_decide as Hlen.
    + rewrite drop_app_le by (simpl in *; rewrite length_app in Hlen;
                             unfold IP_CAP in Hlen; simpl in Hlen; lia).
      apply elem_of_app. right. by left.
    + apply elem_of_app. right. by left.
  - intros other Hne. by rewrite lookup_insert_ne.
Qed.

(** ** The aggregates of a token *)

Lemma sum_counts_insert_fresh (m : gmap string Z) k n :
  m !! k = None → sum_counts (<[k := n]> m) = n + sum_counts m.
Proof.
  intros Hk. unfold sum_counts. rewrite map_fold_insert_L; [done| |done].
  intros. lia.
Qed.

Lemma sum_counts_insert (m : gmap string Z) k n :
  sum_counts (<[k := n]> m) = n + sum_counts m - default 0 (m !! k).
Proof.
  destruct (m !! k) as [v|] eqn:Hk; simpl.
  - rewrite <- (insert_delete_eq m).
    rewrite sum_counts_insert_fresh by apply lookup_delete_eq.
    rewrite <- (insert_delete_id m k v) at 2 by done.
    rewrite sum_counts_insert_fresh by apply lookup_delete_eq. lia.
  - rewrite sum_counts_insert_fresh by done. lia.
Qed.

Lemma count_up_insert (m : gmap string Z) k :
  count_up k m = <[k := default 0 (m !! k) + 1]> m.
Proof.
  unfold count_up. destruct (m !! k) as [v|] eqn:Hk.
  - by rewrite Hk.
  - by rewrite lookup_insert_eq, insert_insert_eq.
Qed.

Lemma sum_counts_count_up (m : gmap string Z) k :
  sum_counts (count_up k m) = sum_counts m + 1.
Proof. rewrite count_up_insert, sum_counts_insert. lia. Qed.

(** Where the record of a token after an operation comes from: it is new,
    or it is the record of before, with the same usage statistics or with
    one more usage event. *)
Lemma step_token_origin self o token_id t' :
  Db.tokens (data (step self o)) !! token_id = Some t' →
  Token.usage_stats t' = UsageStats.mk 0 0 ∅ [] ∅
  ∨ ∃ t, Db.tokens (data self) !! token_id = Some t
         ∧ (Token.usage_stats t' = Token.usage_stats t
            ∨ ∃ now model tokens_used ip country,
                t' = record_on_token now model tokens_used ip country t).
Proof.
  op_cases o tid; simpl.
  - destruct (decide (token_id_of ("lma_" +:+ urlsafe) = token_id)) as [<-|Hne].
    + rewrite lookup_insert_eq. intros [= <-]. by left.
    + rewrite lookup_insert_ne by done. intros Ht. right. exists t'. auto.
  - unfold revoke_token. token_cases self tid; simpl;
      [|intros Ht'; right; exists t'; auto].
    assert (Db.tokens (if Token.is_active t
                       then add_active_tokens (-1) (data self) else data self)
            = Db.tokens (data self)) as -> by by destruct (Token.is_active t).
    destruct (decide (tid = token_id)) as [<-|Hne].
    + rewrite lookup_alter_eq, Ht. intros [= <-]. right. exists t. auto.
    + rewrite lookup_alter_ne by done. intros Ht'. right. exists t'. auto.
  - unfold activate_token. token_cases self tid; simpl;
      [|intros Ht'; right; exists t'; auto].
    assert (Db.tokens (if negb (Token.is_active t)
                       then add_active_tokens 1 (data self) else data self)
            = Db.tokens (data self)) as -> by by destruct (Token.is_active t).
    destruct (decide (tid = token_id)) as [<-|Hne].
    + rewrite lookup_alter_eq, Ht. intros [= <-]. right. exists t. auto.
    + rewrite lookup_alter_ne by done. intros Ht'. right. exists t'. auto.
  - unfold delete_token. token_cases self tid; simpl;
      [|intros Ht'; right; exists t'; auto].
    assert (Db.tokens (if Token.is_active t
                       then add_active_tokens (-1) (data self) else data self)
            = Db.tokens (data self)) as -> by by destruct (Token.is_active t).
    destruct (decide (tid = token_id)) as [<-|Hne].
    + by rewrite lookup_delete_eq.
    + rewrite lookup_delete_ne by done. intros Ht'. right. exists t'. auto.
  - unfold log_usage. token_cases self (token_id_of token); simpl;
      [|intros Ht'; right; exists t'; auto].
    destruct (decide (token_id_of token = token_id)) as [<-|Hne].
    + rewrite lookup_alter_eq, Ht. intros [= <-]. right. exists t.
      split; [done|]. right. by repeat eexists.
    + rewrite lookup_alter_ne by done. intros Ht'. right. exists t'. auto.
Qed.

Lemma record_on_token_consistent now model tokens_used ip country t :
  usage_consistent (Token.usage_stats t) →
  usage_consistent
    (Token.usage_stats (record_on_token now model tokens_used ip country t)).
Proof.
  intros (Hmodels & Hcountries & Hpos). unfold usage_consistent. simpl.
  split; [rewrite sum_counts_count_up; lia|]. split.
  - destruct country as [c|]; [|lia].
    destruct (truthy c); [rewrite sum_counts_count_up|]; lia.
  - rewrite count_up_insert. apply map_Forall_insert_2; [|done].
    destruct (UsageStats.models_used (Token.usage_stats t) !! model) as [v|] eqn:Hv;
      simpl; [|lia].
    specialize (Hpos _ _ Hv). simpl in Hpos. lia.
Qed.

Lemma run_usage_consistent self ops :
  map_Forall (λ _ t, usage_consistent (Token.usage_stats t)) (Db.tokens (data self)) →
  map_Forall (λ _ t, usage_consistent (Token.usage_stats t))
             (Db.tokens (data (run self ops))).
Proof.
  revert self. induction ops as [|o ops IH]; intros self Hself; simpl; [done|].
  apply IH. intros token_id t' Ht'. simpl.
  destruct (step_token_origin self o token_id t' Ht')
    as [-> | (t & Ht & [-> | (now & model & n & ip & country & ->)])].
  - unfold usage_consistent, sum_counts. simpl.
    rewrite !map_fold_empty. split; [done|]. split; [done|].
    apply map_Forall_empty.
  - apply (Hself _ _ Ht).
  - apply record_on_token_consistent, (Hself _ _ Ht).
Qed.

(** X10.  After any operations on the empty store, the aggregates of every
    token agree: the counts of [models_used] are positive and add up to
    [total_requests], and the counts of [countries] add up to at most
    [total_requests]. *)
Theorem usage_stats_are_consistent (ops : list op) (token_id : string)
    (t : Token.t) :
  Db.tokens (data (run empty_store ops)) !! token_id = Some t →
  sum_counts (UsageStats.models_used (Token.usage_stats t))
  = UsageStats.total_requests (Token.usage_stats t)
  ∧ sum_counts (UsageStats.countries (Token.usage_stats t))
    <= UsageStats.total_requests (Token.usage_stats t)
  ∧ (∀ model n, UsageStats.models_used (Token.usage_stats t) !! model = Some n →
                1 <= n).
Proof.
  intros Ht.
  destruct (run_usage_consistent empty_store ops (map_Forall_empty _)
              token_id t Ht) as (Hmodels & Hcountries & Hpos).
  split; [done|]. split; [done|]. intros model n Hn. apply (Hpos _ _ Hn).
Qed.

(** ** Reading the store *)

(** X11.  [get_recent_usage] returns the end of the usage log: for a
    positive [limit] the last [limit] entries, or the whole log when it has
    fewer.  For [limit] zero it returns the whole log, not the empty list,
    and for a negative [limit] it returns the log without its first
    [-limit] entries. *)
Theorem get_recent_usage_is_a_suffix (self : DashboardDatabase) (limit : Z) :
  let logs := Db.usage_logs (data self) in
  let recent := get_recent_usage self limit in
  (∃ older, logs = older ++ recent)
  ∧ (1 <= limit →
       recent = lastn (Z.to_nat limit) logs
       ∧ Z.of_nat (length recent) = Z.min limit (Z.of_nat (length logs)))
  ∧ (limit = 0 → recent = logs)
  ∧ (limit < 0 → recent = drop (Z.to_nat (- limit)) logs).
Proof.
  intros logs recent. subst recent. unfold get_recent_usage, slice_from.
  fold logs. split; [|split; [|split]].
  - eexists. symmetry. apply take_drop.
  - intros Hpos. rewrite (proj2 (Z.ltb_lt _ _)) by lia. unfold lastn.
    replace (Z.to_nat (Z.max (- limit + Z.of_nat (length logs)) 0))
      with (length logs - Z.to_nat limit)%nat by lia.
    split; [done|]. rewrite length_drop. lia.
  - intros ->. simpl. by rewrite Z.min_l by lia.
  - intros Hneg. rewrite (proj2 (Z.ltb_ge _ _)) by lia.
    destruct (decide (- limit <= Z.of_nat (length logs))) as [Hle|Hgt].
    + by rewrite Z.min_l by lia.
    + rewrite Z.min_r by lia. rewrite Nat2Z.id.
      by rewrite drop_all, drop_ge by lia.
Qed.

(** X12.  The per-model and per-country breakdowns of an unknown token are
    empty.  A usage event of a token of the store adds one to the count of
    its model, starting from zero for a new model, and leaves the counts of
    the other models; when it comes from a loopback address it adds one to
    the count of [Local], whatever the geolocation service replies. *)
Theorem usage_breakdowns_count_events (self : DashboardDatabase)
    (token model : string) (tokens_used : Z) (ip : string) (env : usage_env) :
  let token_id := token_id_of token in
  let after := log_usage self token model tokens_used ip env in
  (Db.tokens (data self) !! token_id = None →
     get_token_usage_by_model self token_id = ∅
     ∧ get_token_usage_by_country self token_id = ∅)
  ∧ (is_Some (Db.tokens (data self) !! token_id) →
       get_token_usage_by_model after token_id !! model
       = Some (default 0 (get_token_usage_by_model self token_id !! model) + 1)
       ∧ (∀ other, other ≠ model →
            get_token_usage_by_model after token_id !! other
            = get_token_usage_by_model self token_id !! other)
       ∧ (ip ∈ ["127.0.0.1"; "localhost"; "::1"] →
            get_token_usage_by_country after token_id !! "Local"
            = Some (default 0 (get_token_usage_by_country self token_id !! "Local")
                    + 1))).
Proof.
  intros token_id after. subst token_id after.
  unfold get_token_usage_by_model, get_token_usage_by_country. split.
  - by intros ->.
  - intros [t Ht].
    rewrite (log_usage_present self token model tokens_used ip env t) by done.
    simpl. rewrite lookup_insert_eq, Ht. simpl. rewrite count_up_insert.
    split; [by rewrite lookup_insert_eq|].
    split; [intros other Hne; by rewrite lookup_insert_ne|].
    intros Hlocal. unfold _get_country_from_ip.
    rewrite bool_decide_eq_true_2 by done. simpl.
    by rewrite count_up_insert, lookup_insert_eq.
Qed.

(** ** The saved file *)

Lemma step_saved self o :
  _load_data (db_file self) = Returns (StoreDoc (data self)) →
  _load_data (db_file (step self o)) = Returns (StoreDoc (data (step self o))).
Proof.
  intros Hsync. op_cases o tid; simpl; [done| | | |].
  - unfold revoke_token. by token_cases self tid.
  - unfold activate_token. by token_cases self tid.
  - unfold delete_token. by token_cases self tid.
  - unfold log_usage. by token_cases self (token_id_of token).
Qed.

(** X13.  After any operations on a store created without a file, loading
    the file gives the store that is in memory: every operation that changes
    the store saves it, and the others leave both as they are. *)
Theorem saved_file_holds_the_store (ops : list op) :
  let self := run empty_store ops in
  _load_data (db_file self) = Returns (StoreDoc (data self)).
Proof.
  intros self. subst self.
  assert (∀ init, _load_data (db_file init) = Returns (StoreDoc (data init)) →
                  _load_data (db_file (run init ops))
                  = Returns (StoreDoc (data (run init ops)))) as Hrun.
  { induction ops as [|o ops IH]; intros init Hinit; simpl; [done|].
    by apply IH, step_saved. }
  by apply Hrun.
Qed.

(** ** The endpoints of the administrator *)

Lemma validate_session_true sessions session_id now :
  (validate_session sessions session_id now).1 = true →
  ∃ sid session, session_id = Some sid ∧ truthy sid = true
                 ∧ sessions !! sid = Some session
                 ∧ now <= Session.expires_at session
                 ∧ (validate_session sessions session_id now).2 = sessions.
Proof.
  destruct session_id as [sid|]; simpl; [|done].
  destruct (truthy sid) eqn:Hsid; simpl; [|done].
  destruct (sessions !! sid) as [session|] eqn:Hs; [|done].
  case_bool_decide as Hexp; simpl; [done|]. intros _.
  exists sid, session. repeat split; [done..|lia].
Qed.

Lemma with_current_user_valid {A} (srv : Server) session_id now
    (body : string → DashboardDatabase → A * DashboardDatabase) :
  (validate_session (sessions srv) session_id now).1 = true →
  ∃ username,
    with_current_user srv session_id now body
    = (Responds (body username (db srv)).1,
       mkServer (body username (db srv)).2 (sessions srv)).
Proof.
  intros Hvalid.
  destruct (validate_session_true _ _ _ Hvalid)
    as (sid & session & -> & Hsid & Hs & Hexp & Hsame).
  exists (Session.username session).
  unfold with_current_user, get_current_user.
  destruct (validate_session (sessions srv) (Some sid) now) as [valid sessions'].
  simpl in *. subst valid sessions'. simpl. rewrite Hs. simpl.
  by destruct (body (Session.username session) (db srv)).
Qed.

Lemma with_current_user_invalid {A} (srv : Server) session_id now
    (body : string → DashboardDatabase → A * DashboardDatabase) :
  (validate_session (sessions srv) session_id now).1 = false →
  with_current_user srv session_id now body
  = (Fails 401 "Not authenticated",
     mkServer (db srv) (validate_session (sessions srv) session_id now).2).
Proof.
  intros Hinvalid. unfold with_current_user, get_current_user.
  destruct (validate_session (sessions srv) session_id now) as [valid sessions'].
  simpl in *. by subst valid.
Qed.

(** X17.  The endpoints that revoke, activate, delete and create tokens,
    and those that list the tokens and the recent usage, do nothing without
    a valid session: they raise the [HTTPException] 401 and leave the
    database object, in memory and on file, as it is. *)
Theorem admin_endpoints_need_a_session (srv : Server) (session_id : option string)
    (now : datetime) (token_id user_name user_email urlsafe : string)
    (created : datetime) (limit : Z) :
  (validate_session (sessions srv) session_id now).1 = false →
  let denied {A} (result : handler_result A * Server) :=
    result.1 = Fails 401 "Not authenticated" ∧ db result.2 = db srv in
  denied (revoke_token_endpoint srv token_id session_id now)
  ∧ denied (activate_token_endpoint srv token_id session_id now)
  ∧ denied (delete_token_endpoint srv token_id session_id now)
  ∧ denied (create_token_endpoint srv user_name user_email session_id now
                                  urlsafe created)
  ∧ denied (get_all_tokens_api srv session_id now)
  ∧ denied (get_recent_usage_api srv limit session_id now).
Proof.
  intros Hinvalid denied. subst denied. simpl.
  unfold revoke_token_endpoint, activate_token_endpoint, delete_token_endpoint,
    create_token_endpoint, get_all_tokens_api, get_recent_usage_api.
  rewrite !with_current_user_invalid by done. simpl. tauto.
Qed.

(** X18.  With a valid session, the endpoints that revoke, activate and
    delete a token answer with the value the database method returns and
    leave the database object as the method leaves it; the session store
    is unchanged. *)
Theorem admin_endpoints_run_the_method (srv : Server) (session_id : option string)
    (now : datetime) (token_id : string) :
  (validate_session (sessions srv) session_id now).1 = true →
  revoke_token_endpoint srv token_id session_id now
  = (Responds (revoke_token (db srv) token_id).1,
     mkServer (revoke_token (db srv) token_id).2 (sessions srv))
  ∧ activate_token_endpoint srv token_id session_id now
    = (Responds (activate_token (db srv) token_id).1,
       mkServer (activate_token (db srv) token_id).2 (sessions srv))
  ∧ delete_token_endpoint srv token_id session_id now
    = (Responds (delete_token (db srv) token_id).1,
       mkServer (delete_token (db srv) token_id).2 (sessions srv)).
Proof.
  intros Hvalid.
  unfold revoke_token_endpoint, activate_token_endpoint, delete_token_endpoint.
  split; [|split].
  - by destruct (with_current_user_valid srv session_id now
                   (λ _ db, revoke_token db token_id) Hvalid) as [_ ->].
  - by destruct (with_current_user_valid srv session_id now
                   (λ _ db, activate_token db token_id) Hvalid) as [_ ->].
  - by destruct (with_current_user_valid srv session_id now
                   (λ _ db, delete_token db token_id) Hvalid) as [_ ->].
Qed.

(** X19.  With a valid session, the endpoint that creates a token answers
    with [success] true and the new secret, and the record that the secret
    finds holds the display name under [name] and the e-mail under [email];
    an empty name or e-mail is left out, and there is no other key. *)
Theorem create_token_stores_given_user_info (srv : Server)
    (session_id : option string) (now : datetime)
    (user_name user_email urlsafe : string) (created : datetime) :
  (validate_session (sessions srv) session_id now).1 = true →
  let result := create_token_endpoint srv user_name user_email session_id now
                                      urlsafe created in
  result.1 = Responds (true, "lma_" +:+ urlsafe)
  ∧ ∃ t, get_token_info (db result.2) ("lma_" +:+ urlsafe) = Some t
         ∧ Token.is_active t = true
         ∧ Token.user_info t !! "name"
           = (if truthy user_name then Some user_name else None)
         ∧ Token.user_info t !! "email"
           = (if truthy user_email then Some user_email else None)
         ∧ (∀ k, k ≠ "name" → k ≠ "email" → Token.user_info t !! k = None).
Proof.
  intros Hvalid result. subst result. unfold create_token_endpoint.
  match goal with
  | |- context [with_current_user _ _ _ ?body] =>
      destruct (with_current_user_valid srv session_id now body Hvalid) as [_ ->]
  end.
  simpl. split; [done|]. eexists. unfold get_token_info. simpl.
  rewrite lookup_insert_eq. split; [reflexivity|]. simpl. split; [done|].
  destruct (truthy user_name), (truthy user_email); simpl;
    rewrite ?lookup_insert_eq, ?lookup_insert_ne, ?lookup_empty by done;
    (split; [done|]); (split; [done|]);
    intros k Hname Hemail;
    by rewrite ?lookup_insert_ne, ?lookup_empty by done.
Qed.

Lemma get_usage_timeline_overflow d now token_id days :
  get_usage_timeline d now token_id days = None
  ↔ ¬ (- MAX_DELTA_DAYS <= days <= MAX_DELTA_DAYS)
    ∨ datetime_in_range (now - days * MICROSECONDS_PER_DAY) = false.
Proof.
  unfold get_usage_timeline, timedelta_days, datetime_sub, datetime_add.
  replace (now - days * MICROSECONDS_PER_DAY)
    with (now + - (days * MICROSECONDS_PER_DAY)) by lia.
  case_bool_decide as Hdays; simpl.
  - destruct (datetime_in_range (now + - (days * MICROSECONDS_PER_DAY))); simpl.
    + split; [done|]. by intros [?|?].
    + split; [by right|done].
  - split; [by left|done].
Qed.

(** X20.  The timeline endpoint takes [days] unchecked.  It asks the
    database for the timeline of all tokens when no token is given or the
    token is the empty string, and otherwise for the timeline of the
    identifier derived from the token.  It fails with an [OverflowError],
    whatever the token and the usage log, exactly when [days] is beyond
    999,999,999 in absolute value or the cutoff [now - days] is not a date
    of the years 1 to 9999; so it fails when [days] is more than the days
    that have passed since 0001-01-01. *)
Theorem timeline_endpoint_takes_days_unchecked (self : DashboardDatabase)
    (days : Z) (token : option string) (now : datetime) :
  let asked := match token with
               | Some tok => if decide (tok = "") then None
                             else Some (token_id_of tok)
               | None => None
               end in
  let answer := get_usage_timeline_endpoint self days token now in
  answer = match get_usage_timeline (data self) now asked days with
           | Some timeline => Responds timeline
           | None => Crashes "OverflowError"
           end
  ∧ (answer = Crashes "OverflowError"
     ↔ ¬ (- MAX_DELTA_DAYS <= days <= MAX_DELTA_DAYS)
       ∨ datetime_in_range (now - days * MICROSECONDS_PER_DAY) = false)
  ∧ (now < days * MICROSECONDS_PER_DAY → answer = Crashes "OverflowError").
Proof.
  intros asked answer.
  assert (answer = match get_usage_timeline (data self) now asked days with
                   | Some timeline => Responds timeline
                   | None => Crashes "OverflowError"
                   end) as Hanswer.
  { subst asked answer. unfold get_usage_timeline_endpoint.
    destruct token as [tok|]; [|done].
    destruct (decide (tok = "")) as [->|Hne]; [done|].
    assert (truthy tok = true) as ->; [|done].
    unfold truthy. destruct (String.eqb tok "") eqn:Heq; [|done].
    by apply String.eqb_eq in Heq. }
  assert (answer = Crashes "OverflowError"
          ↔ ¬ (- MAX_DELTA_DAYS <= days <= MAX_DELTA_DAYS)
            ∨ datetime_in_range (now - days * MICROSECONDS_PER_DAY) = false)
    as Hcrash.
  { rewrite Hanswer, <- (get_usage_timeline_overflow (data self) now asked days).
    destruct (get_usage_timeline (data self) now asked days); split; done. }
  split; [done|]. split; [done|].
  intros Hbefore. apply Hcrash. right.
  unfold datetime_in_range. apply bool_decide_eq_false_2. lia.
Qed.

(** ** Recording and reading back *)

Lemma append_log_last e logs : last (append_log e logs) = Some e.
Proof.
  unfold append_log. case_bool_decide as Hlen; [|apply last_snoc].
  rewrite length_app in *. simpl in *.
  rewrite drop_app_le by (unfold LOG_CAP in *; lia). apply last_snoc.
Qed.

(** X21.  The event that [log_usage] records for a token of the store is
    the newest entry of the usage log, with the time, the identifier, the
    model, the tokens, the IP and the country of the call, and
    [get_recent_usage] with limit 1 returns exactly this entry. *)
Theorem recorded_event_is_the_most_recent (self : DashboardDatabase)
    (token model : string) (tokens_used : Z) (ip : string) (env : usage_env) :
  is_Some (Db.tokens (data self) !! token_id_of token) →
  let after := log_usage self token model tokens_used ip env in
  let e := UsageLog.mk (now_logged env) (token_id_of token) model tokens_used ip
                       (_get_country_from_ip (geo env) ip) in
  last (Db.usage_logs (data after)) = Some e
  ∧ get_recent_usage after 1 = [e].
Proof.
  intros [t Ht] after e. subst after.
  assert (last (Db.usage_logs
                  (data (log_usage self token model tokens_used ip env)))
          = Some e) as Hlast.
  { rewrite (log_usage_present self token model tokens_used ip env t) by done.
    simpl. apply append_log_last. }
  split; [done|].
  unfold get_recent_usage, slice_from.
  destruct (Db.usage_logs (data (log_usage self token model tokens_used ip env)))
    as [|x l _] using rev_ind; [done|].
  rewrite last_snoc in Hlast. injection Hlast as ->.
  rewrite length_app. simpl.
  replace (Z.to_nat _) with (length l) by lia.
  by rewrite drop_app_length.
Qed.

(** X22.  Recording usage does not depend on the geolocation service: for
    a token of the store and an address that is not a loopback one, when the
    request to the service raises, or its status is not 200, or its body
    has no country, the event is recorded with the country [Unknown], and
    the count of [Unknown] of the token grows by one. *)
Theorem usage_is_recorded_without_geolocation (self : DashboardDatabase)
    (token model : string) (tokens_used : Z) (ip : string) (env : usage_env) :
  is_Some (Db.tokens (data self) !! token_id_of token) →
  ip ∉ ["127.0.0.1"; "localhost"; "::1"] →
  geo env = GeoRaises
  ∨ (∃ status_code body, geo env = GeoResponse status_code body
                         ∧ (status_code ≠ 200 ∨ body = None)) →
  let after := log_usage self token model tokens_used ip env in
  let token_id := token_id_of token in
  UsageLog.country <$> last (Db.usage_logs (data after)) = Some (Some "Unknown")
  ∧ get_token_usage_by_country after token_id !! "Unknown"
    = Some (default 0 (get_token_usage_by_country self token_id !! "Unknown") + 1)
  ∧ GlobalStats.total_requests (Db.stats (data after))
    = GlobalStats.total_requests (Db.stats (data self)) + 1.
Proof.
  intros [t Ht] Hip Hgeo after token_id. subst after token_id.
  assert (_get_country_from_ip (geo env) ip = Some "Unknown") as Hcountry.
  { unfold _get_country_from_ip. rewrite bool_decide_eq_false_2 by done.
    destruct Hgeo as [-> | (status_code & body & -> & [Hs | ->])]; [done| |].
    - by rewrite bool_decide_eq_false_2.
    - by case_bool_decide. }
  unfold get_token_usage_by_country.
  rewrite (log_usage_present self token model tokens_used ip env t) by done.
  simpl. rewrite append_log_last, lookup_insert_eq, Ht, Hcountry. simpl.
  by rewrite count_up_insert, lookup_insert_eq.
Qed.

End Store.

(** ** Loading the persisted file *)

(** C8, as amended.  When the file is missing, or holds text that is not a
    JSON document, loading returns the empty structure; when it holds a JSON
    document, loading returns this document as it is, whatever its shape. *)
Theorem load_data_empty_on_missing_or_unparsable (db_file : option file_content) :
  (db_file = None ∨ db_file = Some NotJson →
     _load_data db_file = Returns (StoreDoc _create_empty_db))
  ∧ (∀ doc, db_file = Some (Document doc) → _load_data db_file = Returns doc)
  ∧ _create_empty_db = Db.mk ∅ [] (GlobalStats.mk 0 0 0).
Proof.
  split; [|split; [|done]].
  - by intros [-> | ->].
  - by intros doc ->.
Qed.

(** A JSON document that is not a store is loaded as it is, not replaced by
    the empty structure; and a file whose bytes are not UTF-8 makes loading
    raise. *)
Lemma load_data_not_always_empty :
  _load_data (Some (Document (OtherDoc "[]"))) = Returns (OtherDoc "[]")
  ∧ _load_data (Some (Document (OtherDoc "[]")))
    ≠ Returns (StoreDoc _create_empty_db)
  ∧ _load_data (Some NotUtf8) = Raises UnicodeDecodeError.
Proof. split; [done|]. split; [simpl; congruence|done]. Qed.

(** ** Sessions *)

Lemma create_session_spec sessions urlsafe now1 now2 username :
  create_session sessions urlsafe now1 now2 username
  = if datetime_in_range (now2 + SESSION_TTL)
    then Some (urlsafe,
               <[urlsafe := Session.mk username now1 (now2 + SESSION_TTL)]> sessions)
    else None.
Proof.
  unfold create_session, datetime_add. simpl.
  change (24 * MICROSECONDS_PER_HOUR) with SESSION_TTL.
  by destruct (datetime_in_range (now2 + SESSION_TTL)).
Qed.

(** C7.  (1) [validate_session] reports a session valid only if the session
    is in the store and the time is not after its [expires_at].  (2) It
    reports invalid when the id is absent from the store or the time is after
    [expires_at].  (3) A validation that finds the session of a non-empty id
    expired removes it from the store, so that the id is absent afterwards;
    every other validation leaves the store as it is.  (4) A session made by
    [create_session] expires 24 hours after the reading of the clock taken
    for [expires_at], the second of the two readings at its creation: it is
    valid up to that time and invalid, and removed, after it. *)
Theorem validate_session_respects_expiry (sessions : gmap string Session.t)
    (now : datetime) :
  (∀ session_id,
     (validate_session sessions session_id now).1 = true →
     ∃ sid session, session_id = Some sid ∧ sessions !! sid = Some session
                    ∧ now <= Session.expires_at session
                    ∧ (validate_session sessions session_id now).2 = sessions)
  ∧ (∀ sid,
       sessions !! sid = None
       ∨ (∃ session, sessions !! sid = Some session
                     ∧ Session.expires_at session < now) →
       (validate_session sessions (Some sid) now).1 = false)
  ∧ (∀ sid session,
       truthy sid = true → sessions !! sid = Some session →
       Session.expires_at session < now →
       validate_session sessions (Some sid) now = (false, delete sid sessions)
       ∧ delete sid sessions !! sid = None)
  ∧ (∀ session_id,
       (validate_session sessions session_id now).2 = sessions
       ∨ ∃ sid session, session_id = Some sid ∧ sessions !! sid = Some session
                        ∧ Session.expires_at session < now
                        ∧ (validate_session sessions session_id now).2
                          = delete sid sessions)
  ∧ (∀ urlsafe now1 now2 username sid sessions',
       truthy urlsafe = true →
       create_session sessions urlsafe now1 now2 username = Some (sid, sessions') →
       (∃ session, sessions' !! sid = Some session
                   ∧ Session.username session = username
                   ∧ Session.created_at session = now1
                   ∧ Session.expires_at session = now2 + 24 * MICROSECONDS_PER_HOUR)
       ∧ (now <= now2 + 24 * MICROSECONDS_PER_HOUR →
            validate_session sessions' (Some sid) now = (true, sessions'))
       ∧ (now2 + 24 * MICROSECONDS_PER_HOUR < now →
            validate_session sessions' (Some sid) now = (false, delete sid sessions'))).
Proof.
  split; [|split; [|split; [|split]]].
  - intros [sid|]; simpl; [|done].
    destruct (truthy sid); simpl; [|done].
    destruct (sessions !! sid) as [session|] eqn:Hs; [|done].
    case_bool_decide as Hexp; simpl; [done|]. intros _.
    exists sid, session. repeat split; [done|lia].
  - intros sid Hcase. simpl. destruct (truthy sid); simpl; [|done].
    destruct Hcase as [-> | (session & -> & Hexp)]; [done|].
    by rewrite bool_decide_eq_true_2.
  - intros sid session Hsid Hs Hexp. simpl. rewrite Hsid, Hs. simpl.
    rewrite bool_decide_eq_true_2 by done. split; [done|apply lookup_delete_eq].
  - intros [sid|]; simpl; [|by left].
    destruct (truthy sid); simpl; [|by left].
    destruct (sessions !! sid) as [session|] eqn:Hs; [|by left].
    case_bool_decide as Hexp; simpl; [|by left].
    right. by exists sid, session.
  - intros urlsafe now1 now2 username sid sessions' Hid.
    rewrite create_session_spec. fold SESSION_TTL.
    destruct (datetime_in_range (now2 + SESSION_TTL)); [|done].
    intros [= <- <-]. split; [|split].
    + eexists. by rewrite lookup_insert_eq.
    + intros Hle. simpl. rewrite Hid, lookup_insert_eq. simpl.
      by rewrite bool_decide_eq_false_2 by lia.
    + intros Hlt. simpl. rewrite Hid, lookup_insert_eq. simpl.
      by rewrite bool_decide_eq_true_2 by lia.
Qed.

(** ** The usage timeline *)

Lemma truthy_opt_Some tid : tid ≠ "" → truthy_opt (Some tid) = true.
Proof.
  intros Hne. unfold truthy_opt, truthy.
  destruct (String.eqb tid "") eqn:Heq; [|done].
  by apply String.eqb_eq in Heq.
Qed.

Lemma timeline_step_dropped cutoff token_id timeline log :
  token_id ≠ Some "" → ¬ survives cutoff token_id log →
  timeline_step cutoff token_id timeline log = timeline.
Proof.
  intros Hid Hno. unfold timeline_step, survives in *.
  case_bool_decide as Hold; [done|].
  destruct token_id as [tid|]; [|exfalso; apply Hno; split; [lia|done]].
  rewrite truthy_opt_Some by congruence. simpl.
  case_bool_decide as Htid; [|done].
  exfalso. apply Hno. split; [lia|congruence].
Qed.

Lemma timeline_step_survivor cutoff token_id timeline log :
  survives cutoff token_id log →
  timeline_step cutoff token_id timeline log
  = <[date_of log :=
        ((default (0, 0) (timeline !! date_of log)).1 + 1,
         (default (0, 0) (timeline !! date_of log)).2 + UsageLog.tokens log)]>
      timeline.
Proof.
  intros [Hnew Htid]. unfold timeline_step. fold (date_of log).
  rewrite bool_decide_eq_false_2 by lia.
  assert (truthy_opt token_id
          && negb (bool_decide (Some (UsageLog.token_id log) = token_id)) = false)
    as ->.
  { destruct token_id as [tid|]; [|done]. subst tid.
    rewrite bool_decide_eq_true_2 by done. apply andb_false_r. }
  destruct (timeline !! date_of log) as [b|] eqn:Hb.
  - by rewrite Hb.
  - rewrite lookup_insert_eq. simpl. by rewrite insert_insert_eq.
Qed.

Lemma day_entries_cons cutoff token_id day log logs :
  day_entries cutoff token_id day (log :: logs)
  = if decide (survives cutoff token_id log ∧ date_of log = day)
    then log :: day_entries cutoff token_id day logs
    else day_entries cutoff token_id day logs.
Proof.
  unfold day_entries. rewrite (filter_cons (survives cutoff token_id)).
  destruct (decide (survives cutoff token_id log)) as [Hs|Hs].
  - rewrite filter_cons. destruct (decide (date_of log = day)) as [Hd|Hd].
    + by rewrite decide_True.
    + by rewrite decide_False by tauto.
  - by rewrite decide_False by tauto.
Qed.

Lemma foldl_timeline_lookup cutoff token_id logs timeline day :
  token_id ≠ Some "" →
  foldl (timeline_step cutoff token_id) timeline logs !! day
  = bump (timeline !! day) (day_entries cutoff token_id day logs).
Proof.
  intros Hid. revert timeline.
  induction logs as [|log logs IH]; intros timeline; [done|].
  simpl. rewrite IH, day_entries_cons.
  destruct (decide (survives cutoff token_id log)) as [Hs|Hs].
  - rewrite timeline_step_survivor by done.
    destruct (decide (date_of log = day)) as [Hd|Hd].
    + rewrite decide_True by done. subst day. rewrite lookup_insert_eq.
      unfold bump.
      destruct (day_entries cutoff token_id (date_of log) logs) as [|e es];
        simpl; f_equal; f_equal; unfold sumZ; simpl; lia.
    + rewrite decide_False by tauto. by rewrite lookup_insert_ne.
  - rewrite timeline_step_dropped by done. by rewrite decide_False by tauto.
Qed.

Lemma day_entries_nonempty cutoff token_id day logs :
  day_entries cutoff token_id day logs ≠ []
  ↔ day ∈ date_of <$> filter (survives cutoff token_id) logs.
Proof.
  unfold day_entries. rewrite list_elem_of_fmap. split.
  - intros Hne.
    destruct (filter (λ log, date_of log = day)
                     (filter (survives cutoff token_id) logs)) as [|e es] eqn:Hes;
      [done|].
    assert (e ∈ e :: es) as Hin by left. rewrite <- Hes in Hin.
    apply list_elem_of_filter in Hin as [Hd Hin]. by exists e.
  - intros (e & -> & Hin) Hnil.
    assert (e ∈ filter (λ log, date_of log = date_of e)
                       (filter (survives cutoff token_id) logs)) as Hin'
      by by apply list_elem_of_filter.
    rewrite Hnil in Hin'. by apply elem_of_nil in Hin'.
Qed.

(** *** Sorting the items of the dict *)

#[local] Instance items_le_total : Total items_le.
Proof. intros x y. unfold items_le. apply (total String.le). Qed.

#[local] Instance items_le_trans : Transitive items_le.
Proof. intros x y z. unfold items_le. apply (transitivity (R := String.le)). Qed.

(** The sorted items of a dict whose keys are [keys] and whose value at [k]
    is [val k]. *)
Lemma sorted_items_of_keys (timeline : gmap string (Z * Z)) (keys : list string)
    (val : string → Z * Z) :
  NoDup keys →
  (∀ k v, timeline !! k = Some v ↔ k ∈ keys ∧ v = val k) →
  sorted_items timeline = (λ k, (k, val k)) <$> merge_sort String.le keys.
Proof.
  intros Hnd Hlookup. unfold sorted_items.
  assert (∀ kv, kv ∈ map_to_list timeline ↔ kv ∈ (λ k, (k, val k)) <$> keys)
    as Hsame.
  { intros [k v]. rewrite elem_of_map_to_list, Hlookup, list_elem_of_fmap. split.
    - intros [Hk ->]. by exists k.
    - intros (k' & [= -> ->] & Hk). done. }
  apply (StronglySorted_unique_strong items_le).
  - intros [k1 v1] [k2 v2] H1 H2 Hle Hge. unfold items_le in *. simpl in *.
    assert (k1 = k2) as -> by by apply (anti_symm String.le).
    rewrite merge_sort_Permutation in H1. apply Hsame in H1.
    apply list_elem_of_fmap in H1 as (k1 & [= -> ->] & _).
    apply list_elem_of_fmap in H2 as (k2 & [= -> ->] & _). done.
  - apply Sorted_StronglySorted; [apply _|]. apply Sorted_merge_sort. apply _.
  - apply (StronglySorted_fmap _ String.le); [by intros x y|].
    apply Sorted_StronglySorted; [apply _|]. apply Sorted_merge_sort. apply _.
  - rewrite !merge_sort_Permutation.
    apply NoDup_Permutation; [apply NoDup_map_to_list| |done].
    apply NoDup_fmap_2_strong; [|done]. by intros x y _ _ [= ->].
Qed.

Lemma timeline_sorted_items cutoff token_id logs :
  token_id ≠ Some "" →
  bucket_of_item <$> sorted_items (foldl (timeline_step cutoff token_id) ∅ logs)
  = reference_timeline cutoff token_id logs.
Proof.
  intros Hid. unfold reference_timeline.
  rewrite (sorted_items_of_keys _
             (remove_dups (date_of <$> filter (survives cutoff token_id) logs))
             (λ day, let es := day_entries cutoff token_id day logs in
                     (Z.of_nat (length es), sumZ (UsageLog.tokens <$> es)))).
  - by rewrite <- list_fmap_compose.
  - apply NoDup_remove_dups.
  - intros k v. rewrite foldl_timeline_lookup, lookup_empty by done.
    rewrite elem_of_remove_dups, <- day_entries_nonempty. unfold bump.
    destruct (day_entries cutoff token_id k logs) as [|e es]; simpl.
    + split; [done|]. by intros [? _].
    + rewrite !Z.add_0_l. split; [by intros [= <-] | by intros [_ ->]].
Qed.

Lemma reference_timeline_dates cutoff token_id logs :
  Bucket.date <$> reference_timeline cutoff token_id logs
  = merge_sort String.le
      (remove_dups (date_of <$> filter (survives cutoff token_id) logs)).
Proof.
  unfold reference_timeline. rewrite <- list_fmap_compose.
  apply list_fmap_id.
Qed.

Lemma cutoff_date_in_range now days :
  - MAX_DELTA_DAYS <= days <= MAX_DELTA_DAYS →
  datetime_in_range (now - days * MICROSECONDS_PER_DAY) = true →
  timedelta_days days ≫= datetime_sub now
  = Some (now - days * MICROSECONDS_PER_DAY).
Proof.
  intros Hdays Hrange. unfold timedelta_days.
  rewrite bool_decide_eq_true_2 by done. simpl.
  unfold datetime_sub, datetime_add.
  replace (now + - (days * MICROSECONDS_PER_DAY))
    with (now - days * MICROSECONDS_PER_DAY) by lia.
  by rewrite Hrange.
Qed.

(** The empty string is no token identifier: the scan takes it for no
    token at all. *)
Lemma get_usage_timeline_empty_token_id d now days :
  get_usage_timeline d now (Some "") days = get_usage_timeline d now None days.
Proof. reflexivity. Qed.

(** C4, as amended.  Let the token asked for be [token_id], an empty
    string counting as no token.  When [days] is a number of days a
    [timedelta] can hold and the cutoff [now - days] is a date Python can
    represent, [get_usage_timeline] returns the reference re-bucketing of
    the log for this cutoff and the token asked for.  The entries it counts
    are those of the log whose timestamp is not before the cutoff and, when
    a token is asked for, whose [token_id] is this token.  There is a
    bucket for a date exactly when an entry counted has this date; the
    [requests] of a bucket is the number of the entries counted of its
    date, which is never zero, and its [tokens] is the sum of their tokens.
    The date keys of the buckets are distinct and ascending in the order of
    strings. *)
Theorem get_usage_timeline_is_reference (d : Db.t) (now : datetime)
    (token_id : option string) (days : Z) :
  - MAX_DELTA_DAYS <= days <= MAX_DELTA_DAYS →
  datetime_in_range (now - days * MICROSECONDS_PER_DAY) = true →
  let cutoff := now - days * MICROSECONDS_PER_DAY in
  let asked := if decide (token_id = Some "") then None else token_id in
  let counted := filter (survives cutoff asked) (Db.usage_logs d) in
  ∃ timeline,
    get_usage_timeline d now token_id days = Some timeline
    ∧ timeline = reference_timeline cutoff asked (Db.usage_logs d)
    ∧ (∀ log, log ∈ counted
              ↔ log ∈ Db.usage_logs d
                ∧ ¬ UsageLog.timestamp log < cutoff
                ∧ ∀ tid, asked = Some tid → UsageLog.token_id log = tid)
    ∧ (∀ day, day ∈ Bucket.date <$> timeline
              ↔ ∃ log, log ∈ counted ∧ date_of log = day)
    ∧ (∀ b, b ∈ timeline →
            let es := filter (λ log, date_of log = Bucket.date b) counted in
            Bucket.requests b = Z.of_nat (length es)
            ∧ Bucket.tokens b = sumZ (UsageLog.tokens <$> es)
            ∧ 1 <= Bucket.requests b)
    ∧ Sorted String.le (Bucket.date <$> timeline)
    ∧ NoDup (Bucket.date <$> timeline).
Proof.
  intros Hdays Hrange cutoff asked counted.
  assert (get_usage_timeline d now token_id days
          = get_usage_timeline d now asked days) as ->.
  { subst asked. destruct (decide (token_id = Some "")) as [->|_]; [|done].
    apply get_usage_timeline_empty_token_id. }
  assert (asked ≠ Some "") as Hid.
  { subst asked. by destruct (decide (token_id = Some "")). }
  clearbody asked. clear token_id. rename asked into token_id.
  exists (reference_timeline cutoff token_id (Db.usage_logs d)).
  assert (∀ day, day ∈ Bucket.date
                         <$> reference_timeline cutoff token_id (Db.usage_logs d)
                 ↔ day ∈ date_of <$> counted) as Hdates.
  { intros day.
    by rewrite reference_timeline_dates, merge_sort_Permutation,
         elem_of_remove_dups. }
  split; [|split; [done|split; [|split; [|split; [|split]]]]].
  - unfold get_usage_timeline.
    pose proof (cutoff_date_in_range now days Hdays Hrange) as Hcut.
    destruct (timedelta_days days) as [delta|]; [|done]. simpl in *.
    rewrite Hcut. simpl. by rewrite timeline_sorted_items.
  - intros log. subst counted. rewrite list_elem_of_filter. unfold survives.
    split.
    + intros [[Hnew Htid] Hin]. split; [done|]. split; [lia|].
      intros tid ->. done.
    + intros (Hin & Hnew & Htid). split; [|done]. split; [lia|].
      destruct token_id as [tid|]; [by apply Htid|done].
  - intros day. rewrite Hdates, list_elem_of_fmap. split.
    + intros (log & -> & Hin). by exists log.
    + intros (log & Hin & <-). by exists log.
  - intros b Hb es. subst es.
    assert (Bucket.date b ∈ date_of <$> counted) as Hday
      by (apply Hdates, list_elem_of_fmap; by exists b).
    apply day_entries_nonempty in Hday.
    unfold reference_timeline in Hb.
    apply list_elem_of_fmap in Hb as (day & -> & _). simpl in *.
    fold (day_entries cutoff token_id day (Db.usage_logs d)).
    split; [done|]. split; [done|].
    destruct (day_entries cutoff token_id day (Db.usage_logs d)); [done|].
    simpl. lia.
  - rewrite reference_timeline_dates. apply Sorted_merge_sort. apply _.
  - rewrite reference_timeline_dates, merge_sort_Permutation.
    apply NoDup_remove_dups.
Qed.

(** The claim C4 fails as it stands: with more days than have passed since
    0001-01-01 the call raises [OverflowError]; with the empty string for
    [token_id] it returns the timeline of all tokens, where the reference
    for that identifier is empty; and the buckets follow the order of their
    keys as strings, in which a date before the year 1000 comes after the
    later ones. *)
Lemma get_usage_timeline_not_always_reference :
  get_usage_timeline sample_db sample_now None 800000 = None
  ∧ get_usage_timeline sample_db sample_now (Some "") 7
    = Some [Bucket.mk "2024-01-01" 2 15; Bucket.mk "2024-01-02" 1 7]
  ∧ reference_timeline (sample_now - 7 * MICROSECONDS_PER_DAY) (Some "")
                       (Db.usage_logs sample_db) = []
  ∧ get_usage_timeline
      (Db.mk ∅ [ UsageLog.mk (364876 * MICROSECONDS_PER_DAY) "lma_a" "gpt" 1
                             "1.2.3.4" None;
                 UsageLog.mk (738885 * MICROSECONDS_PER_DAY) "lma_a" "gpt" 2
                             "1.2.3.4" None ]
             (GlobalStats.mk 2 3 0))
      sample_now None 400000
    = Some [Bucket.mk "2024-01-01" 1 2; Bucket.mk "999-12-31" 1 1].
Proof. vm_compute. repeat split. Qed.


Arguments Ok {A} a.
Arguments HTTPException {A} status_code detail.
Arguments Responds {A} a.
Arguments Fails {A} status_code detail.
Arguments Crashes {A} exception.

(** ** Sessions and the administrator *)

(** X14.  [get_current_user] returns a user name only for a session that is
    in the store and not expired, and then it is the user name of this
    session and the store is unchanged; for every other session id it
    raises the [HTTPException] 401, and it never raises another exception.
    It changes the session store as [validate_session] does. *)
Theorem get_current_user_authenticates (sessions : gmap string Session.t)
    (session_id : option string) (now : datetime) :
  let result := get_current_user sessions session_id now in
  (∀ username, result.1 = Responds username →
     ∃ sid session, session_id = Some sid ∧ sessions !! sid = Some session
                    ∧ Session.username session = username
                    ∧ now <= Session.expires_at session
                    ∧ result.2 = sessions)
  ∧ ((validate_session sessions session_id now).1 = true →
       ∃ username, result.1 = Responds username)
  ∧ ((validate_session sessions session_id now).1 = false →
       result.1 = Fails 401 "Not authenticated")
  ∧ (∀ exception, result.1 ≠ Crashes exception)
  ∧ result.2 = (validate_session sessions session_id now).2.
Proof.
  intros result. subst result. unfold get_current_user.
  destruct (validate_session sessions session_id now) as [valid sessions'] eqn:Hv.
  destruct valid; simpl.
  - destruct (validate_session_true sessions session_id now)
      as (sid & session & -> & Hsid & Hs & Hexp & Hsame);
      [by rewrite Hv|].
    rewrite Hv in Hsame. simpl in Hsame. subst sessions'. simpl. rewrite Hs.
    simpl. split; [|split; [|split; [|split]]]; try done.
    + intros username [= <-]. by exists sid, session.
    + by eexists.
  - split; [done|]. split; [done|]. split; [done|]. split; done.
Qed.

(** X15.  After [admin_logout] the session id does not validate at any
    time, and the other sessions are as before.  Logging out without a
    session id, with an empty one or with one that is not in the store
    changes nothing, so that logging out twice is logging out once.  The
    response redirects to the login page and deletes the cookie. *)
Theorem admin_logout_ends_the_session (sessions : gmap string Session.t)
    (session_id : option string) :
  let after := (admin_logout sessions session_id).2 in
  (∀ now, (validate_session after session_id now).1 = false)
  ∧ (∀ other, Some other ≠ session_id → after !! other = sessions !! other)
  ∧ (session_id = None ∨ session_id = Some ""
     ∨ (∃ sid, session_id = Some sid ∧ sessions !! sid = None) →
     after = sessions)
  ∧ (admin_logout after session_id).2 = after
  ∧ (admin_logout sessions session_id).1
    = mkRedirectResponse "/admin/login" 303 [] ["session_id"].
Proof.
  intros after. subst after. unfold admin_logout.
  destruct session_id as [sid|]; simpl; [|done].
  destruct (truthy sid) eqn:Hsid; simpl.
  - case_bool_decide as Hin; simpl.
    + split; [intros now; simpl; by rewrite ?Hsid, ?lookup_delete_eq|].
      split; [intros other Hne; apply lookup_delete_ne; congruence|].
      split.
      { intros [? | [[= ->] | (sid' & [= <-] & Hnone)]]; [done|done|].
        rewrite Hnone in Hin. by destruct Hin. }
      split; [|done]. rewrite ?Hsid. simpl.
      rewrite bool_decide_eq_false_2; [done|].
      rewrite lookup_delete_eq. by intros [? ?].
    + assert (sessions !! sid = None) as Hnone.
      { destruct (sessions !! sid) eqn:Hs; [|done]. destruct Hin. by eexists. }
      split; [intros now; simpl; by rewrite ?Hsid, ?Hnone|].
      split; [done|]. split; [done|]. split; [|done].
      rewrite ?Hsid. simpl. by rewrite bool_decide_eq_false_2.
  - split; [intros now; simpl; by rewrite ?Hsid|].
    split; [done|]. split; [done|]. split; [|done]. by rewrite ?Hsid.
Qed.

(** X16.  [admin_login] with a wrong user name or a wrong password raises
    the [HTTPException] 401 and leaves the session store as it is.  With
    the right credentials, and when the expiry time is a date Python can
    represent, it redirects to [/admin] with status 303 and sets the
    [session_id] cookie, HTTP-only, to the new session id, with a
    [max_age] of 86400 seconds, the 24 hours the session lives; the
    session is stored for the user name with its expiry 24 hours after
    the second reading of the clock, and the other sessions are kept. *)
Theorem admin_login_checks_credentials (ADMIN_USERNAME ADMIN_PASSWORD : string)
    (sessions : gmap string Session.t)
    (username password urlsafe : string) (now1 now2 : datetime) :
  let result := admin_login ADMIN_USERNAME ADMIN_PASSWORD sessions username
                            password urlsafe now1 now2 in
  (username ≠ ADMIN_USERNAME ∨ password ≠ ADMIN_PASSWORD →
     result = (Fails 401 "Invalid credentials", sessions))
  ∧ (username = ADMIN_USERNAME → password = ADMIN_PASSWORD →
     datetime_in_range (now2 + SESSION_TTL) = true →
     result.1 = Responds (mkRedirectResponse "/admin" 303
                            [mkCookie "session_id" urlsafe true 86400 "lax"] [])
     ∧ result.2 !! urlsafe
       = Some (Session.mk ADMIN_USERNAME now1 (now2 + SESSION_TTL))
     ∧ (∀ other, other ≠ urlsafe → result.2 !! other = sessions !! other)
     ∧ 86400 * 1000000 = SESSION_TTL).
Proof.
  intros result. subst result. unfold admin_login. split.
  - intros [Hu | Hp].
    + by rewrite (bool_decide_eq_false_2 _ Hu).
    + rewrite (bool_decide_eq_false_2 _ Hp). by rewrite andb_false_r.
  - intros -> -> Hrange. rewrite !bool_decide_eq_true_2 by done. simpl.
    rewrite create_session_spec, Hrange. simpl.
    split; [done|]. split; [apply lookup_insert_eq|].
    split; [intros other Hne; by apply lookup_insert_ne|done].
Qed.

(** ** The totals of the timeline *)

Lemma sumZ_app l k : sumZ (l ++ k) = sumZ l + sumZ k.
Proof. unfold sumZ. induction l as [|x l IH]; simpl; lia. Qed.

Lemma sumZ_Permutation l k : l ≡ₚ k → sumZ l = sumZ k.
Proof. unfold sumZ. induction 1; simpl; lia. Qed.

Lemma sumZ_cons x l : sumZ (x :: l) = x + sumZ l.
Proof. done. Qed.

Lemma sumZ_indicator_absent (ds : list string) (x : string) (c : Z) :
  x ∉ ds → sumZ ((λ d, if decide (x = d) then c else 0) <$> ds) = 0.
Proof.
  induction ds as [|d ds IH]; [done|]. intros [Hne Hd]%not_elem_of_cons.
  rewrite fmap_cons, sumZ_cons, decide_False, IH by done. lia.
Qed.

Lemma sumZ_indicator (ds : list string) (x : string) (c : Z) :
  NoDup ds → x ∈ ds →
  sumZ ((λ d, if decide (x = d) then c else 0) <$> ds) = c.
Proof.
  induction 1 as [|d ds Hd Hnd IH]; [by intros ?%elem_of_nil|].
  intros Hin. rewrite fmap_cons, sumZ_cons.
  destruct (decide (x = d)) as [->|Hne].
  - rewrite sumZ_indicator_absent by done. lia.
  - apply elem_of_cons in Hin as [?|Hin]; [done|]. rewrite IH by done. lia.
Qed.

(** Summing a weight day by day, over days that cover the entries, is
    summing it over the entries. *)
Lemma sumZ_by_day (w : UsageLog.t → Z) (ds : list string) (es : list UsageLog.t) :
  NoDup ds → (∀ e, e ∈ es → date_of e ∈ ds) →
  sumZ ((λ d, sumZ (w <$> filter (λ e, date_of e = d) es)) <$> ds)
  = sumZ (w <$> es).
Proof.
  intros Hnd. induction es as [|e es IH]; intros Hcover.
  - clear Hnd Hcover. induction ds as [|d ds IHd]; [done|].
    rewrite fmap_cons, sumZ_cons, IHd. done.
  - rewrite fmap_cons, sumZ_cons.
    rewrite <- (sumZ_indicator ds (date_of e) (w e))
      by (done || apply Hcover; left).
    rewrite <- IH by (intros e' He'; apply Hcover; by right).
    clear IH Hcover Hnd. induction ds as [|d ds IHd]; [done|].
    rewrite !fmap_cons, !sumZ_cons, IHd, filter_cons.
    destruct (decide (date_of e = d)); [rewrite fmap_cons, sumZ_cons|]; lia.
Qed.

Lemma sumZ_ones {A} (l : list A) : sumZ ((λ _, 1) <$> l) = Z.of_nat (length l).
Proof.
  induction l as [|x l IH]; [done|].
  rewrite fmap_cons, sumZ_cons, IH, length_cons. lia.
Qed.

(** X23.  The timeline conserves the totals: the [requests] of its buckets
    add up to the number of log entries counted, and their [tokens] to the
    tokens of these entries; it is empty exactly when no entry is
    counted. *)
Theorem timeline_conserves_totals (d : Db.t) (now : datetime)
    (token_id : option string) (days : Z) :
  token_id ≠ Some "" →
  - MAX_DELTA_DAYS <= days <= MAX_DELTA_DAYS →
  datetime_in_range (now - days * MICROSECONDS_PER_DAY) = true →
  let cutoff := now - days * MICROSECONDS_PER_DAY in
  let counted := filter (survives cutoff token_id) (Db.usage_logs d) in
  ∃ timeline,
    get_usage_timeline d now token_id days = Some timeline
    ∧ sumZ (Bucket.requests <$> timeline) = Z.of_nat (length counted)
    ∧ sumZ (Bucket.tokens <$> timeline) = sumZ (UsageLog.tokens <$> counted)
    ∧ (timeline = [] ↔ counted = []).
Proof.
  intros Hid Hdays Hrange cutoff counted.
  exists (reference_timeline cutoff token_id (Db.usage_logs d)).
  split.
  { unfold get_usage_timeline.
    pose proof (cutoff_date_in_range now days Hdays Hrange) as Hcut.
    destruct (timedelta_days days) as [delta|]; [|done]. simpl in *.
    rewrite Hcut. simpl. by rewrite timeline_sorted_items. }
  unfold reference_timeline, day_entries. fold counted.
  set (ds := remove_dups (date_of <$> counted)).
  assert (merge_sort String.le ds ≡ₚ ds) as Hperm
    by apply merge_sort_Permutation.
  assert (NoDup ds) as Hnd by apply NoDup_remove_dups.
  assert (∀ e, e ∈ counted → date_of e ∈ ds) as Hcover.
  { intros e He. apply elem_of_remove_dups, list_elem_of_fmap. by exists e. }
  split; [|split].
  - rewrite <- list_fmap_compose.
    rewrite (sumZ_Permutation _ _ (fmap_Permutation _ _ _ Hperm)).
    rewrite <- sumZ_ones, <- (sumZ_by_day (λ _, 1) ds counted) by done.
    f_equal. apply list_fmap_ext. intros _ day _. simpl. by rewrite sumZ_ones.
  - rewrite <- list_fmap_compose.
    rewrite (sumZ_Permutation _ _ (fmap_Permutation _ _ _ Hperm)).
    by rewrite <- (sumZ_by_day UsageLog.tokens ds counted) by done.
  - split.
    + intros Hnil%fmap_nil_inv.
      rewrite Hnil in Hperm. apply Permutation_nil_l in Hperm.
      destruct counted as [|e es]; [done|].
      assert (date_of e ∈ ds) as Hin by (apply Hcover; left).
      rewrite <- Hperm in Hin. by apply elem_of_nil in Hin.
    + intros Hnil. subst ds. rewrite Hnil. done.
Qed.

(** X24.  A usage event recorded for a token of the store shows in the
    timeline read afterwards, for all tokens and for this token: when the
    event is not older than the cutoff, the timeline has a bucket for the
    date of the event, with at least one request. *)
Theorem recorded_event_shows_in_timeline (sha256_hexdigest : string → string)
    (self : DashboardDatabase) (token model : string) (tokens_used : Z)
    (ip : string) (env : usage_env) (now : datetime) (days : Z)
    (asked : option string) :
  is_Some (Db.tokens (data self) !! token_id_of sha256_hexdigest token) →
  asked = None
  ∨ (asked = Some (token_id_of sha256_hexdigest token)
     ∧ token_id_of sha256_hexdigest token ≠ "") →
  - MAX_DELTA_DAYS <= days <= MAX_DELTA_DAYS →
  datetime_in_range (now - days * MICROSECONDS_PER_DAY) = true →
  now - days * MICROSECONDS_PER_DAY <= now_logged env →
  let after := log_usage sha256_hexdigest self token model tokens_used ip env in
  ∃ timeline b,
    get_usage_timeline (data after) now asked days = Some timeline
    ∧ b ∈ timeline
    ∧ Bucket.date b = strftime_ymd (now_logged env)
    ∧ 1 <= Bucket.requests b.
Proof.
  intros [t Ht] Hasked Hdays Hrange Hnew after.
  set (cutoff := now - days * MICROSECONDS_PER_DAY) in *.
  set (e := UsageLog.mk (now_logged env) (token_id_of sha256_hexdigest token)
                        model tokens_used ip
                        (_get_country_from_ip (geo env) ip)).
  assert (asked ≠ Some "") as Hid.
  { destruct Hasked as [-> | [-> Hne]]; congruence. }
  assert (e ∈ Db.usage_logs (data after)) as Hin.
  { apply last_Some_elem_of. subst after.
    rewrite (log_usage_present _ self token model tokens_used ip env t) by done.
    simpl. apply append_log_last. }
  assert (survives cutoff asked e) as Hsurvives.
  { split; [done|]. by destruct Hasked as [-> | [-> _]]. }
  assert (e ∈ day_entries cutoff asked (date_of e) (Db.usage_logs (data after)))
    as Hday.
  { unfold day_entries. apply list_elem_of_filter. split; [done|].
    by apply list_elem_of_filter. }
  exists (reference_timeline cutoff asked (Db.usage_logs (data after))).
  exists (Bucket.mk (date_of e)
            (Z.of_nat (length (day_entries cutoff asked (date_of e)
                                 (Db.usage_logs (data after)))))
            (sumZ (UsageLog.tokens
                     <$> day_entries cutoff asked (date_of e)
                           (Db.usage_logs (data after))))).
  split; [|split; [|split; [done|]]].
  - unfold get_usage_timeline.
    pose proof (cutoff_date_in_range now days Hdays Hrange) as Hcut.
    destruct (timedelta_days days) as [delta|]; [|done]. simpl in *.
    rewrite Hcut. simpl. by rewrite timeline_sorted_items.
  - unfold reference_timeline. apply list_elem_of_fmap. exists (date_of e).
    split; [done|]. rewrite merge_sort_Permutation.
    apply elem_of_remove_dups, list_elem_of_fmap. exists e.
    split; [done|]. by apply list_elem_of_filter.
  - simpl.
    destruct (day_entries cutoff asked (date_of e) (Db.usage_logs (data after)));
      [by apply elem_of_nil in Hday | simpl; lia].
Qed.

(** ** Examples *)

Lemma active_tokens_counts_active_flags_example :
  fresh_run demo_digest empty_store
            (sample_admin_before ++ ActivateToken "lma_a" :: sample_admin_after)
  = true
  ∧ (let before := run demo_digest empty_store sample_admin_before in
     let after := step demo_digest before (ActivateToken "lma_a") in
     get_active_token_count after = count_active (Db.tokens (data after))
     ∧ get_active_token_count after - get_active_token_count before
       = transition demo_digest (ActivateToken "lma_a") before after
     ∧ (transition demo_digest (ActivateToken "lma_a") before after = 1
        ∨ transition demo_digest (ActivateToken "lma_a") before after = 0
        ∨ transition demo_digest (ActivateToken "lma_a") before after = -1)
     ∧ (∀ token_id, token_id ≠ target demo_digest (ActivateToken "lma_a") →
          active_at token_id after = active_at token_id before)
     ∧ (∀ self, fresh demo_digest self (ActivateToken "lma_a") = true →
          get_active_token_count (step demo_digest self (ActivateToken "lma_a"))
          = get_active_token_count self
            + transition demo_digest (ActivateToken "lma_a") self
                         (step demo_digest self (ActivateToken "lma_a")))).
Proof.
  split; [vm_compute; reflexivity|].
  apply (active_tokens_counts_active_flags demo_digest sample_admin_before
           (ActivateToken "lma_a") sample_admin_after).
  vm_compute. reflexivity.
Defined.

Lemma log_usage_unknown_token_is_dropped_example :
  Db.tokens (data empty_store) !! token_id_of demo_digest "lma_nobody" = None
  ∧ log_usage demo_digest empty_store "lma_nobody" "gpt" 5 "1.2.3.4" sample_env
    = empty_store.
Proof.
  split; [reflexivity|].
  apply log_usage_unknown_token_is_dropped. reflexivity.
Defined.

Lemma sample_usage_all_recorded (n : nat) (o : op) :
  (∃ model tokens_used ip env, o = LogUsage "lma_a" model tokens_used ip env) →
  length (events demo_digest empty_store
            ((GenerateToken "a" 100 None :: sample_usage 1 n) ++ [o]))
  = S n.
Proof.
  intros Ho. rewrite <- app_comm_cons.
  change (length (events demo_digest
                    (step demo_digest empty_store (GenerateToken "a" 100 None))
                    (sample_usage 1 n ++ [o])) = S n).
  rewrite (events_all_recorded demo_digest _ "lma_a").
  - unfold sample_usage. rewrite length_app, length_fmap, length_seqZ.
    simpl. lia.
  - by eexists.
  - apply Forall_app. split.
    + unfold sample_usage. apply Forall_fmap, Forall_true.
      intros i. simpl. by repeat eexists.
    + by apply Forall_singleton.
Qed.

(** The first usage event of a token: the log holds it alone and the global
    counters count it.  And ten thousand and one usage events of one token:
    the log holds ten thousand, from the second on. *)
Lemma usage_log_keeps_last_10000_example :
  (let before := run demo_digest empty_store [GenerateToken "a" 100 None] in
   let o := LogUsage "lma_a" "gpt" 10 "1.2.3.4" sample_env in
   let e := UsageLog.mk 0 "lma_a" "gpt" 10 "1.2.3.4" (Some "Unknown") in
   let after := step demo_digest before o in
   recorded demo_digest before o = Some e
   ∧ Db.usage_logs (data after) = [e]
   ∧ GlobalStats.total_requests (Db.stats (data after)) = 1
   ∧ GlobalStats.total_tokens (Db.stats (data after)) = 10)
  ∧ (let pre := GenerateToken "a" 100 None :: sample_usage 1 LOG_CAP in
     let o := LogUsage "lma_a" "gpt" 10001 "10.0.0001" sample_env in
     let before := run demo_digest empty_store pre in
     let after := step demo_digest before o in
     let all := events demo_digest empty_store (pre ++ [o]) in
     length all = S LOG_CAP
     ∧ length (Db.usage_logs (data after)) = LOG_CAP
     ∧ head (Db.usage_logs (data after)) = all !! 1%nat).
Proof.
  split.
  - intros before o e after.
    assert (recorded demo_digest before o = Some e) as He
      by (vm_compute; reflexivity).
    split; [exact He|].
    destruct (usage_log_keeps_last_10000 demo_digest
                [GenerateToken "a" 100 None] o) as (_ & _ & _ & Hcall & _).
    destruct (Hcall e He) as (Hlogs & Hrequests & Htokens).
    split; [etrans; [exact Hlogs | vm_compute; reflexivity]|].
    split; (etrans; [eassumption | vm_compute; reflexivity]).
  - intros pre o before after all.
    assert (length all = S LOG_CAP) as Hlen.
    { apply sample_usage_all_recorded. by repeat eexists. }
    split; [exact Hlen|].
    destruct (usage_log_keeps_last_10000 demo_digest pre o)
      as (_ & _ & _ & _ & _ & _ & Hscenario & _).
    exact (Hscenario Hlen).
Defined.

Lemma get_usage_timeline_is_reference_example :
  get_usage_timeline sample_db sample_now (Some "lma_a") 7
  = Some [Bucket.mk "2024-01-01" 2 15]
  ∧ get_usage_timeline sample_db sample_now None 7
    = Some [Bucket.mk "2024-01-01" 2 15; Bucket.mk "2024-01-02" 1 7]
  ∧ get_usage_timeline sample_db sample_now (Some "") 7
    = Some [Bucket.mk "2024-01-01" 2 15; Bucket.mk "2024-01-02" 1 7].
Proof.
  split; [|split].
  - destruct (get_usage_timeline_is_reference sample_db sample_now
                (Some "lma_a") 7) as (timeline & -> & -> & _);
      [vm_compute; intuition discriminate | reflexivity |].
    vm_compute. reflexivity.
  - destruct (get_usage_timeline_is_reference sample_db sample_now None 7)
      as (timeline & -> & -> & _);
      [vm_compute; intuition discriminate | reflexivity |].
    vm_compute. reflexivity.
  - destruct (get_usage_timeline_is_reference sample_db sample_now (Some "") 7)
      as (timeline & -> & -> & _);
      [vm_compute; intuition discriminate | reflexivity |].
    vm_compute. reflexivity.
Defined.

Lemma ip_addresses_bounded_and_distinct_example :
  let self := run demo_digest empty_store [GenerateToken "a" 100 None] in
  let ops := sample_usage 0 101 in
  let after := ips_of "lma_a" (run demo_digest self ops) in
  length (ips_recorded demo_digest "lma_a" ops) = 101%nat
  ∧ head (ips_recorded demo_digest "lma_a" ops) = Some "10.0.0000"
  ∧ length after = 100%nat
  ∧ "10.0.0000" ∉ after.
Proof.
  intros self ops after.
  destruct ip_addresses_bounded_and_distinct with (sha256_hexdigest := demo_digest)
    as (_ & _ & _ & Hscenario).
  destruct (Hscenario self "lma_a" ops) as [_ Hlast].
  - vm_compute. by eexists.
  - vm_compute. reflexivity.
  - vm_compute. reflexivity.
  - apply (bool_decide_unpack _). vm_compute. exact I.
  - assert (length (ips_recorded demo_digest "lma_a" ops) = 101%nat) as Hlen
      by (vm_compute; reflexivity).
    destruct (Hlast Hlen) as [Hcap Hfirst].
    split; [exact Hlen|]. split; [vm_compute; reflexivity|].
    split; [exact Hcap|]. apply Hfirst. vm_compute. reflexivity.
Defined.

Lemma revoke_token_idempotent_example :
  let self := run demo_digest empty_store
                  [GenerateToken "a" 100 None; RevokeToken "lma_a"] in
  (revoke_token self "lma_a").1 = true
  ∧ get_active_token_count (revoke_token self "lma_a").2 = 0
  ∧ revoke_token (revoke_token self "lma_a").2 "lma_a" = revoke_token self "lma_a".
Proof.
  intros self.
  destruct (revoke_token_idempotent self "lma_a") as (_ & _ & Hinactive & Htwice).
  destruct (Hinactive (with_is_active false (new_token "lma_a" 100 None)))
    as [Htrue Hcount]; [vm_compute; reflexivity | reflexivity |].
  split; [exact Htrue|]. split; [|exact Htwice].
  rewrite Hcount. vm_compute. reflexivity.
Defined.

Lemma revoke_activate_frame_example :
  let self := run demo_digest empty_store
                  [GenerateToken "a" 100 None; GenerateToken "b" 101 None] in
  let after := (revoke_token self "lma_a").2 in
  Db.tokens (data after) !! "lma_b" = Db.tokens (data self) !! "lma_b"
  ∧ Db.usage_logs (data after) = Db.usage_logs (data self)
  ∧ GlobalStats.total_requests (Db.stats (data after))
    = GlobalStats.total_requests (Db.stats (data self)).
Proof.
  intros self after.
  destruct (revoke_activate_frame self "lma_a" (new_token "lma_a" 100 None) after)
    as (Hothers & _ & _ & Hlogs & Hrequests & _).
  - vm_compute. reflexivity.
  - left. reflexivity.
  - split; [apply Hothers; discriminate|]. split; [exact Hlogs|exact Hrequests].
Defined.

Lemma load_data_empty_on_missing_or_unparsable_example :
  _load_data None = Returns (StoreDoc _create_empty_db)
  ∧ _load_data (Some NotJson) = Returns (StoreDoc _create_empty_db)
  ∧ _load_data (Some (Document (StoreDoc sample_db))) = Returns (StoreDoc sample_db).
Proof.
  split; [|split].
  - destruct (load_data_empty_on_missing_or_unparsable None) as [Hempty _].
    apply Hempty. left. reflexivity.
  - destruct (load_data_empty_on_missing_or_unparsable (Some NotJson)) as [Hempty _].
    apply Hempty. right. reflexivity.
  - destruct (load_data_empty_on_missing_or_unparsable
                (Some (Document (StoreDoc sample_db)))) as (_ & Hdoc & _).
    apply Hdoc. reflexivity.
Defined.

(** A session created at [T] is valid at [T + 23h59m]; at [T + 24h01m] it is
    invalid, and removed. *)
Lemma validate_session_respects_expiry_example :
  let T := sample_now in
  let minute := 60000000 in
  ∃ sessions,
    create_session ∅ "s3ss10n" T T "admin" = Some ("s3ss10n", sessions)
    ∧ validate_session sessions (Some "s3ss10n") (T + 23 * 60 * minute + 59 * minute)
      = (true, sessions)
    ∧ validate_session sessions (Some "s3ss10n") (T + 24 * 60 * minute + minute)
      = (false, delete "s3ss10n" sessions)
    ∧ delete "s3ss10n" sessions !! "s3ss10n" = None.
Proof.
  intros T minute.
  exists (<["s3ss10n" := Session.mk "admin" T (T + SESSION_TTL)]> ∅).
  assert (create_session ∅ "s3ss10n" T T "admin"
          = Some ("s3ss10n",
                  <["s3ss10n" := Session.mk "admin" T (T + SESSION_TTL)]> ∅))
    as Hcreate by (vm_compute; reflexivity).
  split; [exact Hcreate|].
  destruct (validate_session_respects_expiry ∅ (T + 23 * 60 * minute + 59 * minute))
    as (_ & _ & _ & _ & Hcreated).
  destruct (Hcreated "s3ss10n" T T "admin" _ _ eq_refl Hcreate) as (_ & Hvalid & _).
  split; [apply Hvalid; vm_compute; discriminate|].
  destruct (validate_session_respects_expiry ∅ (T + 24 * 60 * minute + minute))
    as (_ & _ & _ & _ & Hcreated').
  destruct (Hcreated' "s3ss10n" T T "admin" _ _ eq_refl Hcreate) as (_ & _ & Hexpired).
  split; [apply Hexpired; vm_compute; reflexivity|].
  apply lookup_delete_eq.
Defined.

(** The premise of C1 on generated identifiers is needed: were the same
    secret generated twice, the second record would replace the first and
    the counter would count both. *)
Lemma generate_token_same_identifier_counts_twice :
  let self := run demo_digest empty_store
                  [GenerateToken "a" 100 None; GenerateToken "a" 101 None] in
  fresh_run demo_digest empty_store
            [GenerateToken "a" 100 None; GenerateToken "a" 101 None] = false
  ∧ get_active_token_count self = 2
  ∧ count_active (Db.tokens (data self)) = 1.
Proof. vm_compute. repeat split. Qed.

(** One token, two usage events of the same model from the same address:
    the aggregates of the token. *)
Lemma usage_stats_of_two_events_example :
  let self := run demo_digest empty_store
                  [ GenerateToken "a" 100 None;
                    LogUsage "lma_a" "gpt" 10 "1.2.3.4" sample_env;
                    LogUsage "lma_a" "gpt" 5 "1.2.3.4" sample_env ] in
  Token.usage_stats <$> Db.tokens (data self) !! "lma_a"
  = Some (UsageStats.mk 2 15 {["gpt" := 2]} ["1.2.3.4"] {["Unknown" := 2]})
  ∧ Db.stats (data self) = GlobalStats.mk 2 15 1
  ∧ length (Db.usage_logs (data self)) = 2%nat.
Proof. vm_compute. repeat split. Qed.

(** ** Examples for the further properties *)

Lemma revoke_activate_round_trip_example :
  let self := run demo_digest empty_store [GenerateToken "a" 100 None] in
  data (activate_token (revoke_token self "lma_a").2 "lma_a").2 = data self.
Proof.
  intros self.
  destruct (revoke_activate_round_trip self "lma_a" (new_token "lma_a" 100 None))
    as [Hactive _]; [vm_compute; reflexivity|].
  apply Hactive. reflexivity.
Defined.

Lemma revoke_invalidates_and_keeps_record_example :
  let self := run demo_digest empty_store [GenerateToken "a" 100 None] in
  validate_token demo_digest self "lma_a" = true
  ∧ validate_token demo_digest (revoke_token self "lma_a").2 "lma_a" = false
  ∧ get_token_info_endpoint demo_digest (revoke_token self "lma_a").2 "lma_a"
    = Ok [ ("created_at", VDatetime 100);
           ("last_used", VOptDatetime None);
           ("is_active", VBool false);
           ("usage_stats", VUsageStats (UsageStats.mk 0 0 ∅ [] ∅)) ].
Proof.
  intros self. split; [vm_compute; reflexivity|].
  destruct (revoke_invalidates_and_keeps_record demo_digest self "lma_a"
              (new_token "lma_a" 100 None)) as (Hrevoked & Hinfo & _);
    [vm_compute; reflexivity|].
  split; [exact Hrevoked | exact Hinfo].
Defined.

Lemma generate_delete_round_trip_example :
  let generated := generate_token demo_digest empty_store "a" 100 None in
  delete_token generated.2 (token_id_of demo_digest generated.1)
  = (true, _save_data empty_store).
Proof.
  apply (generate_delete_round_trip demo_digest empty_store "a" 100 None).
  reflexivity.
Defined.

Lemma log_usage_updates_the_token_example :
  let self := (revoke_token
                 (run demo_digest empty_store [GenerateToken "a" 100 None])
                 "lma_a").2 in
  let after := log_usage demo_digest self "lma_a" "gpt" 10 "1.2.3.4" sample_env in
  ∃ t', get_token_info demo_digest after "lma_a" = Some t'
        ∧ Token.is_active t' = false
        ∧ UsageStats.total_requests (Token.usage_stats t') = 1
        ∧ UsageStats.total_tokens (Token.usage_stats t') = 10.
Proof.
  intros self after.
  destruct (log_usage_updates_the_token demo_digest self "lma_a" "gpt" 10
              "1.2.3.4" sample_env
              (with_is_active false (new_token "lma_a" 100 None)))
    as [(t' & Hinfo & _ & Hrequests & Htokens & _ & _ & _ & Hactive & _) _];
    [vm_compute; reflexivity|].
  exists t'. split; [exact Hinfo|]. split; [exact Hactive|].
  split; [exact Hrequests | exact Htokens].
Defined.

Lemma usage_stats_are_consistent_example :
  let ops := [ GenerateToken "a" 100 None;
               LogUsage "lma_a" "gpt" 10 "1.2.3.4" sample_env;
               LogUsage "lma_a" "claude" 5 "127.0.0.1" sample_env ] in
  ∃ t, Db.tokens (data (run demo_digest empty_store ops)) !! "lma_a" = Some t
       ∧ sum_counts (UsageStats.models_used (Token.usage_stats t))
         = UsageStats.total_requests (Token.usage_stats t)
       ∧ sum_counts (UsageStats.countries (Token.usage_stats t))
         <= UsageStats.total_requests (Token.usage_stats t).
Proof.
  intros ops.
  destruct (Db.tokens (data (run demo_digest empty_store ops)) !! "lma_a")
    as [t|] eqn:Ht; [|vm_compute in Ht; discriminate Ht].
  exists t. split; [reflexivity|].
  destruct (usage_stats_are_consistent demo_digest ops "lma_a" t Ht)
    as (Hmodels & Hcountries & _).
  split; [exact Hmodels | exact Hcountries].
Defined.

Lemma admin_endpoints_need_a_session_example :
  let srv := mkServer (run demo_digest empty_store [GenerateToken "a" 100 None])
                      ∅ in
  (revoke_token_endpoint srv "lma_a" (Some "f0rged") sample_now).1
  = Fails 401 "Not authenticated"
  ∧ db (revoke_token_endpoint srv "lma_a" (Some "f0rged") sample_now).2 = db srv
  ∧ (delete_token_endpoint srv "lma_a" None sample_now).1
    = Fails 401 "Not authenticated"
  ∧ db (delete_token_endpoint srv "lma_a" None sample_now).2 = db srv.
Proof.
  intros srv.
  destruct (admin_endpoints_need_a_session demo_digest srv (Some "f0rged")
              sample_now "lma_a" "" "" "b" 0 10)
    as ([Hrevoke Hdb] & _); [reflexivity|].
  destruct (admin_endpoints_need_a_session demo_digest srv None
              sample_now "lma_a" "" "" "b" 0 10)
    as (_ & _ & [Hdelete Hdb'] & _); [reflexivity|].
  split; [exact Hrevoke|]. split; [exact Hdb|].
  split; [exact Hdelete | exact Hdb'].
Defined.

Lemma admin_endpoints_run_the_method_example :
  let store := run demo_digest empty_store [GenerateToken "a" 100 None] in
  let srv := mkServer store
               (<["s3ss10n" := Session.mk "admin" sample_now
                                          (sample_now + SESSION_TTL)]> ∅) in
  (revoke_token_endpoint srv "lma_a" (Some "s3ss10n") (sample_now + 1)).1
  = Responds true
  ∧ (revoke_token_endpoint srv "lma_b" (Some "s3ss10n") (sample_now + 1)).1
    = Responds false.
Proof.
  intros store srv.
  destruct (admin_endpoints_run_the_method srv (Some "s3ss10n") (sample_now + 1)
              "lma_a") as (-> & _); [vm_compute; reflexivity|].
  destruct (admin_endpoints_run_the_method srv (Some "s3ss10n") (sample_now + 1)
              "lma_b") as (-> & _); [vm_compute; reflexivity|].
  split; vm_compute; reflexivity.
Defined.

Lemma create_token_stores_given_user_info_example :
  let srv := mkServer empty_store
               (<["s3ss10n" := Session.mk "admin" sample_now
                                          (sample_now + SESSION_TTL)]> ∅) in
  let result := create_token_endpoint demo_digest srv "Ada" ""
                  (Some "s3ss10n") (sample_now + 1) "a" (sample_now + 2) in
  result.1 = Responds (true, "lma_a")
  ∧ ∃ t, get_token_info demo_digest (db result.2) "lma_a" = Some t
         ∧ Token.user_info t !! "name" = Some "Ada"
         ∧ Token.user_info t !! "email" = None.
Proof.
  intros srv result.
  destruct (create_token_stores_given_user_info demo_digest srv (Some "s3ss10n")
              (sample_now + 1) "Ada" "" "a" (sample_now + 2))
    as (Hresponse & t & Hinfo & _ & Hname & Hemail & _);
    [vm_compute; reflexivity|].
  split; [exact Hresponse|]. exists t.
  split; [exact Hinfo|]. split; [exact Hname | exact Hemail].
Defined.

Lemma recorded_event_is_the_most_recent_example :
  let self := run demo_digest empty_store
                  [ GenerateToken "a" 100 None;
                    LogUsage "lma_a" "gpt" 10 "1.2.3.4" sample_env ] in
  let after := log_usage demo_digest self "lma_a" "claude" 5 "127.0.0.1"
                         sample_env in
  get_recent_usage after 1
  = [UsageLog.mk 0 "lma_a" "claude" 5 "127.0.0.1" (Some "Local")].
Proof.
  intros self after.
  destruct (recorded_event_is_the_most_recent demo_digest self "lma_a" "claude"
              5 "127.0.0.1" sample_env) as [_ Hrecent];
    [vm_compute; by eexists|].
  exact Hrecent.
Defined.

Lemma usage_is_recorded_without_geolocation_example :
  let self := run demo_digest empty_store [GenerateToken "a" 100 None] in
  let env := mk_usage_env 0 0 (GeoResponse 503 None) in
  let after := log_usage demo_digest self "lma_a" "gpt" 10 "1.2.3.4" env in
  UsageLog.country <$> last (Db.usage_logs (data after)) = Some (Some "Unknown")
  ∧ get_token_usage_by_country after "lma_a" !! "Unknown" = Some 1.
Proof.
  intros self env after.
  destruct (usage_is_recorded_without_geolocation demo_digest self "lma_a" "gpt"
              10 "1.2.3.4" env) as (Hcountry & Hcount & _).
  - vm_compute. by eexists.
  - intros Hin. repeat (apply elem_of_cons in Hin as [Hin|Hin]; [discriminate Hin|]).
    by apply elem_of_nil in Hin.
  - right. exists 503, None. split; [reflexivity|]. left. discriminate.
  - split; [exact Hcountry|]. etrans; [exact Hcount|]. vm_compute. reflexivity.
Defined.

Lemma timeline_conserves_totals_example :
  ∃ timeline,
    get_usage_timeline sample_db sample_now None 7 = Some timeline
    ∧ sumZ (Bucket.requests <$> timeline) = 3
    ∧ sumZ (Bucket.tokens <$> timeline) = 22.
Proof.
  destruct (timeline_conserves_totals sample_db sample_now None 7)
    as (timeline & Htimeline & Hrequests & Htokens & _);
    [discriminate | vm_compute; intuition discriminate | reflexivity |].
  exists timeline. split; [exact Htimeline|].
  split; (etrans; [eassumption | vm_compute; reflexivity]).
Defined.

Lemma recorded_event_shows_in_timeline_example :
  let self := run demo_digest empty_store [GenerateToken "a" 100 None] in
  let env := mk_usage_env sample_now sample_now GeoRaises in
  let after := log_usage demo_digest self "lma_a" "gpt" 10 "1.2.3.4" env in
  ∃ timeline b,
    get_usage_timeline (data after) (sample_now + 5) (Some "lma_a") 7
    = Some timeline
    ∧ b ∈ timeline
    ∧ Bucket.date b = "2024-01-03"
    ∧ 1 <= Bucket.requests b.
Proof.
  intros self env after.
  destruct (recorded_event_shows_in_timeline demo_digest self "lma_a" "gpt" 10
              "1.2.3.4" env (sample_now + 5) 7 (Some "lma_a"))
    as (timeline & b & Htimeline & Hin & Hdate & Hrequests).
  - vm_compute. by eexists.
  - right. split; [reflexivity | discriminate].
  - vm_compute. intuition discriminate.
  - reflexivity.
  - vm_compute. discriminate.
  - exists timeline, b. split; [exact Htimeline|]. split; [exact Hin|].
    split; [|exact Hrequests]. etrans; [exact Hdate|]. vm_compute. reflexivity.
Defined.
